(** * Marian layer framework and embedder task: a shallow embedding

    This development embeds two source files of marian-dev,
    [src/layers_new/neuralnet.h] (the mask transform and the layers
    [Linear], [Dropout], [LinearReluDropout]) and
    [src/embedder/embedder.h] (the [Embed] task), and states the
    properties of the specification over that embedding.

    Expressions are kept as the graph nodes the C++ code builds; a
    forward evaluator gives values to the nodes the mask transform uses.
    C++ [float] is IEEE binary32, modelled with [spec_float]. *)

From Stdlib Require Import ZArith Bool.
From Stdlib Require Import Floats.SpecFloat.
From stdpp Require Import gmap strings list.

Local Open Scope Z_scope.

(* ===================================================================== *)
(** ** Outcomes of a C++ computation *)
(* ===================================================================== *)

(** A call either returns, stops the process through [ABORT] with a
    diagnostic, or has undefined behaviour (a null dereference, [back()]
    on an empty vector, signed overflow). *)
Inductive Outcome (A : Type) : Type :=
| Return (a : A)
| Abort (msg : string)
| Undefined.
Arguments Return {A} a.
Arguments Abort {A} msg.
Arguments Undefined {A}.

Global Instance Outcome_ret : MRet Outcome := @Return.

Global Instance Outcome_bind : MBind Outcome := fun A B k m =>
  match m with
  | Return a => k a
  | Abort msg => Abort msg
  | Undefined => Undefined
  end.

(* ===================================================================== *)
(** ** Element types and binary32 arithmetic *)
(* ===================================================================== *)

(** Modelled from the spec: the element precision of a tensor
    ([Type] of common/types.h, which is not among the sources). *)
Inductive Type_ : Set :=
| int8 | int16 | int32 | int64
| uint8 | uint16 | uint32 | uint64
| float16 | float32 | float64.

Global Instance Type_eq_dec : EqDecision Type_.
Proof. solve_decision. Defined.

Definition Type_name (t : Type_) : string :=
  match t with
  | int8 => "int8" | int16 => "int16" | int32 => "int32" | int64 => "int64"
  | uint8 => "uint8" | uint16 => "uint16" | uint32 => "uint32" | uint64 => "uint64"
  | float16 => "float16" | float32 => "float32" | float64 => "float64"
  end.

(** A C++ [float]: an IEEE binary32 value. *)
Abbreviation float := spec_float.

(** Precision and infinity exponent of the binary formats. *)
Definition binary16 : Z * Z := (11, 16).
Definition binary32 : Z * Z := (24, 128).
Definition binary64 : Z * Z := (53, 1024).

(** The floating-point format behind an element type, if it has one. *)
Definition float_format (t : Type_) : option (Z * Z) :=
  match t with
  | float16 => Some binary16
  | float32 => Some binary32
  | float64 => Some binary64
  | _ => None
  end.

(** Rounding of [m * 2^e] to a format, to nearest, ties to even. *)
Definition round_to (fmt : Z * Z) (m e : Z) : float :=
  binary_normalize (fst fmt) (snd fmt) m e false.

(** Conversion of a float value to another format (widening is exact). *)
Definition convert (fmt : Z * Z) (x : float) : float :=
  match x with
  | S754_finite s m e => binary_round (fst fmt) (snd fmt) s m e
  | _ => x
  end.

(** An integer literal with suffix [f], e.g. [-99999999.f]. *)
Definition float_lit (z : Z) : float := round_to binary32 z 0.

Definition fdiv (x y : float) : float := SFdiv 24 128 x y.

(** [std::max(a, b)]: [(a < b) ? b : a]. *)
Definition std_max (a b : float) : float := if SFltb a b then b else a.

(** The integer a float denotes, when its value [m * 2^e] is one. *)
Definition float_to_Z (x : float) : option Z :=
  match x with
  | S754_zero _ => Some 0
  | S754_finite s m e =>
      if 0 <=? e then Some (cond_Zopp s (Z.pos m * 2 ^ e))
      else if Z.pos m mod 2 ^ (- e) =? 0
           then Some (cond_Zopp s (Z.pos m / 2 ^ (- e)))
           else None
  | _ => None
  end.

(** Modelled from the spec: [NumericLimits<float>(t).lowest] of
    common/types.h (not among the sources), the lowest representable
    value of element type [t] held in a [float]; for a type wider than
    [float] this is the lowest [float]. *)
Definition NumericLimits_lowest (t : Type_) : float :=
  match t with
  | int8 => float_lit (- 2 ^ 7)
  | int16 => float_lit (- 2 ^ 15)
  | int32 => float_lit (- 2 ^ 31)
  | int64 => float_lit (- 2 ^ 63)
  | uint8 | uint16 | uint32 | uint64 => float_lit 0
  | float16 => convert binary32 (SFopp (SFmax_float 11 16))
  | float32 | float64 => SFopp (SFmax_float 24 128)
  end.

(** Element arithmetic of a tensor of format [fmt] with a [float]
    scalar: the scalar is converted to the element format first. *)
Definition elem_scalar_minus (fmt : Z * Z) (c : float) (x : float) : float :=
  SFsub (fst fmt) (snd fmt) (convert fmt c) x.

Definition elem_mult_scalar (fmt : Z * Z) (x : float) (c : float) : float :=
  SFmul (fst fmt) (snd fmt) x (convert fmt c).

(* ===================================================================== *)
(** ** Shapes *)
(* ===================================================================== *)

(** Modelled from the spec: a [Shape] is an ordered sequence of
    dimensions; [shape()[i]] with a negative [i] counts from the last
    dimension, and an index outside the shape is fatal. *)
Abbreviation Shape := (list Z).

Definition Shape_axis (s : Shape) (i : Z) : option nat :=
  let n := Z.of_nat (length s) in
  let j := if 0 <=? i then i else n + i in
  if (0 <=? j) && (j <? n) then Some (Z.to_nat j) else None.

Definition Shape_dim (s : Shape) (i : Z) : Outcome Z :=
  match Shape_axis s i with
  | Some j =>
      match s !! j with
      | Some d => Return d
      | None => Abort "Index is out of bounds"
      end
  | None => Abort "Index is out of bounds"
  end.

Definition Shape_elements (s : Shape) : Z := foldr Z.mul 1 s.

(** The last two dimensions exchanged (a shape of fewer is unchanged). *)
Definition Shape_swap_last2 (s : Shape) : Shape :=
  match rev s with
  | d1 :: d2 :: r => rev (d2 :: d1 :: r)
  | _ => s
  end.

(** The last dimension replaced. *)
Definition Shape_set_last (s : Shape) (d : Z) : Shape :=
  <[pred (length s) := d]> s.

(** C++ [int] arithmetic: a product outside the 32-bit range is a signed
    overflow. *)
Definition int_mul (a b : Z) : Outcome Z :=
  if (- 2 ^ 31 <=? a * b) && (a * b <? 2 ^ 31) then Return (a * b) else Undefined.

(* ===================================================================== *)
(** ** Expression graph nodes *)
(* ===================================================================== *)

(** Modelled from the spec: the initializers of graph/node_initializers.h
    that the layers name. *)
Inductive NodeInitializer : Set := glorotUniform | zeros | ones.

(** Modelled from the spec: an expression is a node of the computation
    graph with a shape and an element type; its value exists only after
    forward evaluation. One constructor per operator the two source
    files call. *)
Inductive Node : Type :=
| ConstantNode (s : Shape) (t : Type_) (data : list float)
| ParamNode (name : string) (s : Shape) (t : Type_) (init : option NodeInitializer)
| CastNode (a : Node) (t : Type_)
| ReshapeNode (a : Node) (s : Shape)
| RepeatNode (a : Node) (repeats : Z) (ax : Z)
| ScalarMinusNode (c : float) (a : Node)
| ScalarMultNode (a : Node) (c : float)
| AffineNode (a b c : Node) (transA transB : bool)
| DotNode (a b : Node) (transA transB : bool)
| ReluNode (a : Node)
| DropoutNode (a : Node) (p : float) (maskShape : Shape)
| DropoutReluInplaceNode (a : Node) (p : float) (maskShape : Shape).

(** [Expr] is a pointer to a node and may be null. *)
Abbreviation Expr := (option Node).

Definition product_shape (sa sb : Shape) (transA transB : bool) : Shape :=
  let sa' := if transA then Shape_swap_last2 sa else sa in
  let sb' := if transB then Shape_swap_last2 sb else sb in
  Shape_set_last sa' (default 1 (last sb')).

Fixpoint shape (n : Node) : Shape :=
  match n with
  | ConstantNode s _ _ => s
  | ParamNode _ s _ _ => s
  | CastNode a _ => shape a
  | ReshapeNode _ s => s
  | RepeatNode a r ax =>
      match Shape_axis (shape a) ax with
      | Some i => alter (Z.mul r) i (shape a)
      | None => shape a
      end
  | ScalarMinusNode _ a => shape a
  | ScalarMultNode a _ => shape a
  | AffineNode a b _ tA tB => product_shape (shape a) (shape b) tA tB
  | DotNode a b tA tB => product_shape (shape a) (shape b) tA tB
  | ReluNode a => shape a
  | DropoutNode a _ _ => shape a
  | DropoutReluInplaceNode a _ _ => shape a
  end.

Fixpoint value_type (n : Node) : Type_ :=
  match n with
  | ConstantNode _ t _ => t
  | ParamNode _ _ t _ => t
  | CastNode _ t => t
  | ReshapeNode a _ => value_type a
  | RepeatNode a _ _ => value_type a
  | ScalarMinusNode _ a => value_type a
  | ScalarMultNode a _ => value_type a
  | AffineNode a _ _ _ _ => value_type a
  | DotNode a _ _ _ => value_type a
  | ReluNode a => value_type a
  | DropoutNode a _ _ => value_type a
  | DropoutReluInplaceNode a _ _ => value_type a
  end.

(** Modelled from the spec: [reshape] keeps the elements and changes the
    shape; the number of elements must not change. *)
Definition reshape (a : Node) (s : Shape) : Outcome Node :=
  if Shape_elements (shape a) =? Shape_elements s
  then Return (ReshapeNode a s)
  else Abort "Reshape must not change the number of elements".

(** Modelled from the spec: [repeat(a, repeats, ax)] replicates [a]
    [repeats] times along axis [ax]. The count is a [size_t]; the
    operator is given no behaviour for a count below one. *)
Definition repeat (a : Node) (repeats : Z) (ax : Z) : Outcome Node :=
  if repeats <? 1 then Undefined
  else match Shape_axis (shape a) ax with
       | Some _ => Return (RepeatNode a repeats ax)
       | None => Abort "Index is out of bounds"
       end.

(** [c - a] and [a * c] for a [float] scalar [c]. *)
Definition scalar_minus (c : float) (a : Node) : Node := ScalarMinusNode c a.
Definition mult_scalar (a : Node) (c : float) : Node := ScalarMultNode a c.

(** Modelled from the spec: [cast(a, type)] converts to the element
    type; a node that has it already is returned as it is. *)
Definition cast (a : Node) (t : Type_) : Node :=
  if decide (value_type a = t) then a else CastNode a t.

(** Modelled from the spec: the matrix products [dot] and [affine]
    multiply over the last dimension of the left operand and the
    second-to-last of the right one (after the requested transpositions);
    these inner dimensions must agree. *)
Definition inner_dims_match (a b : Node) (transA transB : bool) : bool :=
  let sa := if transA then Shape_swap_last2 (shape a) else shape a in
  let sb := if transB then Shape_swap_last2 (shape b) else shape b in
  match last sa, Shape_axis sb (-2) with
  | Some da, Some j => bool_decide (sb !! j = Some da)
  | _, _ => false
  end.

Definition dot (a b : Node) (transA transB : bool) : Outcome Node :=
  if inner_dims_match a b transA transB
  then Return (DotNode a b transA transB)
  else Abort "Matrix product requires inner dimensions to match".

Definition affine (a b c : Node) (transA transB : bool) : Outcome Node :=
  if inner_dims_match a b transA transB
  then Return (AffineNode a b c transA transB)
  else Abort "Matrix product requires inner dimensions to match".

Definition relu (a : Node) : Node := ReluNode a.
Definition dropout (a : Node) (p : float) (maskShape : Shape) : Node :=
  DropoutNode a p maskShape.
Definition dropoutReluInplace (a : Node) (p : float) (maskShape : Shape) : Node :=
  DropoutReluInplaceNode a p maskShape.

(* ===================================================================== *)
(** ** Forward evaluation of the mask operators *)
(* ===================================================================== *)

(** Each of the [outer] consecutive blocks of [blk] elements is written
    [r] times in a row: the row-major layout of a repetition along an
    axis with [outer] elements before it and [blk] from it on. *)
Fixpoint repeat_blocks {A : Type} (outer blk r : nat) (l : list A) : list A :=
  match outer with
  | O => []
  | S o => mjoin (replicate r (take blk l)) ++ repeat_blocks o blk r (drop blk l)
  end.

(** The values of a node after forward evaluation, for constants and the
    element-wise and layout operators; [None] for the other operators
    and for element types without floating-point arithmetic. *)
Fixpoint forward (n : Node) : option (list float) :=
  match n with
  | ConstantNode _ _ d => Some d
  | ReshapeNode a _ => forward a
  | ScalarMinusNode c a =>
      fmt ← float_format (value_type a);
      d ← forward a;
      Some (elem_scalar_minus fmt c <$> (d : list float))
  | ScalarMultNode a c =>
      fmt ← float_format (value_type a);
      d ← forward a;
      Some ((fun x => elem_mult_scalar fmt x c) <$> (d : list float))
  | RepeatNode a r ax =>
      i ← Shape_axis (shape a) ax;
      d ← forward a;
      Some (repeat_blocks (Z.to_nat (Shape_elements (take i (shape a))))
                          (Z.to_nat (Shape_elements (drop i (shape a))))
                          (Z.to_nat r) d)
  | _ => None
  end.

(* ===================================================================== *)
(** ** neuralnet.h: the mask transform *)
(* ===================================================================== *)

(** [maskFactor] of [transposedLogMask], for a mask of element type [t]. *)
Definition maskFactor (t : Type_) : float :=
  std_max (fdiv (NumericLimits_lowest t) (float_lit 2)) (float_lit (-99999999)).

Definition transposedLogMask (mask : Expr) (dimHeads : Z) : Outcome Expr :=
  match mask with
  | None => Return None
  | Some mask =>
      dimBatch ← Shape_dim (shape mask) (-3);
      dimSrcWords ← Shape_dim (shape mask) (-2);
      mask ← reshape mask [dimBatch; 1; 1; dimSrcWords];
      let maskFactor := maskFactor (value_type mask) in
      let logMask := mult_scalar (scalar_minus (float_lit 1) mask) maskFactor in
      rep ← repeat logMask dimHeads (-3);
      dimBatchHeads ← int_mul dimBatch dimHeads;
      logMask ← reshape rep [1; dimBatchHeads; 1; dimSrcWords];
      Return (Some logMask)
  end.

(* ===================================================================== *)
(** ** neuralnet.h: layers *)
(* ===================================================================== *)

(** Modelled from the spec: the mode context consulted by the
    mode-sensitive layers. *)
Inductive Mode : Set := train | eval.

(** A device a graph is bound to. *)
Definition DeviceId : Set := nat.

(** Modelled from the spec: what the two source files set on and read
    from an [ExpressionGraph]. *)
Record ExpressionGraph : Type := mkExpressionGraph {
  inference : bool;
  defaultElementType : Type_;
  device : option DeviceId;
  workspaceMB : Z
}.

(** Modelled from the spec: the [Layer] base class of
    layers_new/interface.h (not among the sources): the owning graph,
    the path that parameter names are derived from, and the mode. *)
Record Layer : Type := mkLayer {
  graph : ExpressionGraph;
  path : string;
  mode : Mode
}.

Definition getMode (l : Layer) : Mode := mode l.

(** Modelled from the spec: [registerParameterLazy(slot, shape, init)].
    An unbound slot receives a new parameter of the required shape,
    bound in the graph under a name derived from the layer and the slot.
    On a bound slot the call does nothing: the shape of the first
    binding stays, and the call must require that same shape; a call
    that requires another shape is undefined or fatal, and has no
    behaviour here. The result is the slot afterwards. *)
Definition registerParameterLazy (l : Layer) (slotName : string) (slot : Expr)
    (s : Shape) (init : option NodeInitializer) : Outcome Expr :=
  match slot with
  | Some p => if decide (shape p = s) then Return (Some p) else Undefined
  | None => Return (Some (ParamNode (path l +:+ "_" +:+ slotName) s
                                    (defaultElementType (graph l)) init))
  end.

(** Dereferencing a pointer; a null pointer has no behaviour. *)
Definition deref {A : Type} (p : option A) : Outcome A :=
  match p with
  | Some a => Return a
  | None => Undefined
  end.

(** The literal [0.f]. *)
Definition zero_f : float := S754_zero false.

Module Linear.

Record t : Type := mk {
  layer : Layer;
  weight : Expr;
  bias : Expr;
  dimOut : Z;
  useBias : bool;
  transposed : bool;
  init : option NodeInitializer
}.

(** The typical constructor. Its member initializer list is
    [Layer(graph), dimOut(dimOut), useBias(useBias), init(init)]:
    the argument [transposed_] initializes nothing, so the member
    keeps its default [false]. *)
Definition new (base : Layer) (dimOut_ : Z) (useBias_ transposed_ : bool)
    (init_ : NodeInitializer) : t :=
  {| layer := base; weight := None; bias := None; dimOut := dimOut_;
     useBias := useBias_; transposed := false; init := Some init_ |}.

(** The constructor for a tied weight:
    [Layer(graph), weight(tiedWeight), dimOut(weight->shape()[-1]),
     useBias(useBias), init(nullptr)]. *)
Definition new_tied (base : Layer) (tiedWeight : Expr)
    (useBias_ transposed_ : bool) : Outcome t :=
  w ← deref tiedWeight;
  d ← Shape_dim (shape w) (-1);
  Return {| layer := base; weight := tiedWeight; bias := None; dimOut := d;
            useBias := useBias_; transposed := false; init := None |}.

(** [apply]: the layer with its parameter slots after the call, and
    the result. *)
Definition apply (l : t) (x : Node) : Outcome (t * Node) :=
  dimIn ← Shape_dim (shape x) (-1);
  weight' ←
    (if transposed l
     then registerParameterLazy (layer l) "weight" (weight l) [dimOut l; dimIn] (init l)
     else registerParameterLazy (layer l) "weight" (weight l) [dimIn; dimOut l] (init l));
  bias' ←
    (if useBias l
     then registerParameterLazy (layer l) "bias" (bias l) [dimOut l] (Some zeros)
     else Return (bias l));
  let l' := {| layer := layer l; weight := weight'; bias := bias';
               dimOut := dimOut l; useBias := useBias l;
               transposed := transposed l; init := init l |} in
  let outputType := value_type x in
  if useBias l then
    w ← deref weight';
    b ← deref bias';
    y ← affine x (cast w outputType) (cast b outputType) false (transposed l);
    Return (l', y)
  else
    w ← deref weight';
    y ← dot x (cast w outputType) false (transposed l);
    Return (l', y).

End Linear.

Module Dropout.

Record t : Type := mk {
  layer : Layer;
  dropoutProbabilty : float;
  dropoutMaskShape : option Shape
}.

Definition new_masked (base : Layer) (p : float) (maskShape : Shape) : t :=
  {| layer := base; dropoutProbabilty := p; dropoutMaskShape := Some maskShape |}.

Definition new (base : Layer) (p : float) : t :=
  {| layer := base; dropoutProbabilty := p; dropoutMaskShape := None |}.

Definition apply (l : t) (input : Node) : Outcome Node :=
  match getMode (layer l) with
  | eval => Return input
  | train =>
      match dropoutMaskShape l, SFltb zero_f (dropoutProbabilty l) with
      | Some maskShape, true =>
          Return (dropout input (dropoutProbabilty l) maskShape)
      | None, true =>
          d2 ← Shape_dim (shape input) (-2);
          d1 ← Shape_dim (shape input) (-1);
          Return (dropout input (dropoutProbabilty l) [d2; d1])
      | _, false => Return input
      end
  end.

End Dropout.

Module LinearReluDropout.

(** The struct derives from [Linear]: [linear] is the base object. *)
Record t : Type := mk {
  linear : Linear.t;
  dropoutProbabilty : float;
  dropoutMaskShape : option Shape
}.

Definition new (base : Layer) (dimOut_ : Z) (p : float)
    (useBias_ transposed_ : bool) (init_ : NodeInitializer) : t :=
  {| linear := Linear.new base dimOut_ useBias_ transposed_ init_;
     dropoutProbabilty := p; dropoutMaskShape := None |}.

Definition new_masked (base : Layer) (dimOut_ : Z) (p : float) (maskShape : Shape)
    (useBias_ transposed_ : bool) (init_ : NodeInitializer) : t :=
  {| linear := Linear.new base dimOut_ useBias_ transposed_ init_;
     dropoutProbabilty := p; dropoutMaskShape := Some maskShape |}.

(** The affine transform of [apply], up to the mode test: the layer
    with its slots afterwards, and [output]. *)
Definition affine_part (l : t) (x : Node) : Outcome (t * Node) :=
  let b := linear l in
  dimIn ← Shape_dim (shape x) (-1);
  weight' ←
    (if Linear.transposed b
     then registerParameterLazy (Linear.layer b) "weight" (Linear.weight b)
            [Linear.dimOut b; dimIn] (Linear.init b)
     else registerParameterLazy (Linear.layer b) "weight" (Linear.weight b)
            [dimIn; Linear.dimOut b] (Linear.init b));
  bias' ←
    (if Linear.useBias b
     then registerParameterLazy (Linear.layer b) "bias" (Linear.bias b)
            [Linear.dimOut b] (Some zeros)
     else Return (Linear.bias b));
  let l' := {| linear := {| Linear.layer := Linear.layer b;
                            Linear.weight := weight'; Linear.bias := bias';
                            Linear.dimOut := Linear.dimOut b;
                            Linear.useBias := Linear.useBias b;
                            Linear.transposed := Linear.transposed b;
                            Linear.init := Linear.init b |};
               dropoutProbabilty := dropoutProbabilty l;
               dropoutMaskShape := dropoutMaskShape l |} in
  if Linear.useBias b then
    w ← deref weight';
    b' ← deref bias';
    output ← affine x w b' false (Linear.transposed b);
    Return (l', output)
  else
    w ← deref weight';
    output ← dot x w false (Linear.transposed b);
    Return (l', output).

(** The rest of [apply]: the branch on the mode. *)
Definition activation_part (l : t) (output : Node) : Outcome Node :=
  match getMode (Linear.layer (linear l)) with
  | eval => Return (relu output)
  | train =>
      match dropoutMaskShape l, SFltb zero_f (dropoutProbabilty l) with
      | Some maskShape, true =>
          Return (dropoutReluInplace output (dropoutProbabilty l) maskShape)
      | None, true =>
          d2 ← Shape_dim (shape output) (-2);
          d1 ← Shape_dim (shape output) (-1);
          Return (dropoutReluInplace output (dropoutProbabilty l) [d2; d1])
      | _, false => Return (relu output)
      end
  end.

Definition apply (l : t) (x : Node) : Outcome (t * Node) :=
  '(l', output) ← affine_part l x;
  y ← activation_part l' output;
  Return (l', y).

End LinearReluDropout.

(* ===================================================================== *)
(** ** embedder.h: options *)
(* ===================================================================== *)

(** Modelled from the spec: the configuration surface. An [Options]
    object maps option names to values; [get<T>(key)] of a missing key,
    or of a value that is no [T], is fatal; [with] gives a copy with
    keys set. *)
Inductive OptionValue : Type :=
| VBool (b : bool)
| VInt (i : Z)
| VString (s : string)
| VStrings (v : list string)
| VSizes (v : list N).

Abbreviation Options := (gmap string OptionValue).

Definition Options_get (o : Options) (key : string) : Outcome OptionValue :=
  match o !! key with
  | Some v => Return v
  | None => Abort ("Required option '" +:+ key +:+ "' has not been set")
  end.

Definition get_bool (o : Options) (key : string) : Outcome bool :=
  v ← Options_get o key;
  match v with VBool b => Return b | _ => Abort "bad conversion" end.

Definition get_int (o : Options) (key : string) : Outcome Z :=
  v ← Options_get o key;
  match v with VInt i => Return i | _ => Abort "bad conversion" end.

Definition get_string (o : Options) (key : string) : Outcome string :=
  v ← Options_get o key;
  match v with VString s => Return s | _ => Abort "bad conversion" end.

Definition get_strings (o : Options) (key : string) : Outcome (list string) :=
  v ← Options_get o key;
  match v with VStrings l => Return l | _ => Abort "bad conversion" end.

Definition get_sizes (o : Options) (key : string) : Outcome (list N) :=
  v ← Options_get o key;
  match v with VSizes l => Return l | _ => Abort "bad conversion" end.

(** [get<T>(key, defaultValue)]. *)
Definition get_strings_default (o : Options) (key : string) (dflt : list string)
    : Outcome (list string) :=
  match o !! key with
  | Some (VStrings l) => Return l
  | Some _ => Abort "bad conversion"
  | None => Return dflt
  end.

Definition Options_with (o : Options) (key : string) (v : OptionValue) : Options :=
  <[key := v]> o.

(** [v.push_back(v.back())]; [back()] of an empty vector has no
    behaviour. *)
Definition push_back_back {A : Type} (v : list A) : Outcome (list A) :=
  match last v with
  | Some x => Return (v ++ [x])
  | None => Undefined
  end.

(** [v[i]] of a vector. *)
Definition vector_at {A : Type} (v : list A) (i : nat) : Outcome A :=
  match v !! i with
  | Some x => Return x
  | None => Undefined
  end.

(** Modelled from the spec: [typeFromString], the element precision a
    configured name stands for. *)
Definition typeFromString (s : string) : Outcome Type_ :=
  if decide (s = "float16") then Return float16
  else if decide (s = "float32") then Return float32
  else if decide (s = "float64") then Return float64
  else Abort ("Unknown type " +:+ s).

(* ===================================================================== *)
(** ** embedder.h: the Embed task *)
(* ===================================================================== *)

(** Modelled from the spec: the corpus, built from the options in
    force at its construction. *)
Record Corpus : Type := mkCorpus {
  corpus_options : Options;
  prepared : bool
}.

(** Modelled from the spec: a batch, of which the task reads the number
    of sentences and their ids. *)
Record CorpusBatch : Type := mkCorpusBatch {
  sentenceIds : list N
}.

Definition batch_size (b : CorpusBatch) : nat := length (sentenceIds b).

(** Modelled from the spec: the handle on the model weights. *)
Record ModelWeights : Type := mkModelWeights {
  modelPath : string
}.

(** The output expression of a model after [graph->forward()]: its
    element type, its shape, and the elements of its value in that
    type. *)
Record Embeddings : Type := mkEmbeddings {
  emb_value_type : Type_;
  emb_shape : Shape;
  emb_val : list float
}.

(** The template parameter [Model] of [Embed]: what the task calls on
    it. [Model_build] stands for [build] followed by the forward
    evaluation of the graph. *)
Class ModelClass (Model : Type) : Type := {
  Model_new : Options -> Outcome Model;
  Model_load : Model -> ExpressionGraph -> ModelWeights -> Outcome Model;
  Model_build : Model -> ExpressionGraph -> CorpusBatch -> Outcome Embeddings
}.

Record Embed (Model : Type) : Type := mkEmbed {
  options_ : Options;
  corpus_ : Corpus;
  graphs_ : list ExpressionGraph;
  models_ : list Model;
  modelFile_ : ModelWeights
}.
Arguments mkEmbed {Model}.
Arguments options_ {Model}.
Arguments corpus_ {Model}.
Arguments graphs_ {Model}.
Arguments models_ {Model}.
Arguments modelFile_ {Model}.

(** The constructor up to the corpus: the options the task works with. *)
Definition Embed_options (options : Options) : Outcome Options :=
  let options_ := Options_with (Options_with options "inference" (VBool true))
                               "shuffle" (VString "none") in
  similarity ← get_bool options "compute-similarity";
  if (similarity : bool) then
    vVocabs ← get_strings options_ "vocabs";
    vDimVocabs ← get_sizes options_ "dim-vocabs";
    vVocabs ← push_back_back vVocabs;
    vDimVocabs ← push_back_back vDimVocabs;
    Return (Options_with
              (Options_with
                 (Options_with options_ "vocabs" (VStrings vVocabs))
                 "dim-vocabs" (VSizes vDimVocabs))
              "input-types" (VStrings (replicate (length vVocabs) "sequence")))
  else Return options_.

(** One graph per device. *)
Definition Embed_graph (options_ : Options) (dev : DeviceId) : Outcome ExpressionGraph :=
  let graph := mkExpressionGraph true float32 None 0 in
  precison ← get_strings_default options_ "precision" ["float32"];
  p0 ← vector_at precison 0;
  t ← typeFromString p0;
  workspace ← get_int options_ "workspace";
  Return {| inference := inference graph; defaultElementType := t;
            device := Some dev; workspaceMB := workspace |}.

Definition Embed_new {Model : Type} `{ModelClass Model}
    (getDevices : Options -> list DeviceId) (options : Options) : Outcome (Embed Model) :=
  options_ ← Embed_options options;
  let corpus_ := {| corpus_options := options_; prepared := true |} in
  let devices := getDevices options_ in
  graphs_ ← mapM (Embed_graph options_) devices;
  modelPath ← get_string options_ "model";
  let modelFile_ := mkModelWeights modelPath in
  models_ ← mapM (fun g => m ← Model_new options_; Model_load m g modelFile_) graphs_;
  Return {| options_ := options_; corpus_ := corpus_; graphs_ := graphs_;
            models_ := models_; modelFile_ := modelFile_ |}.

(** [Tensor::get(v)]: the elements of the value, in the element type. *)
Definition Tensor_get (e : Embeddings) : list float := emb_val e.

(** A [float16] widened to [float]. *)
Definition float16_to_float (v : float) : float := convert binary32 v.

(** The extraction of [run]: the values of the embeddings as floats. *)
Definition extract (embeddings : Embeddings) : Outcome (list float) :=
  if decide (emb_value_type embeddings = float32) then
    Return (Tensor_get embeddings)
  else if decide (emb_value_type embeddings = float16) then
    let sentVectors16 := Tensor_get embeddings in
    Return (foldl (fun sentVectors v => sentVectors ++ [float16_to_float v])
                  [] sentVectors16)
  else
    Abort ("Unknown embedding type " +:+ Type_name (emb_value_type embeddings)).

(** A 64-bit unsigned value converted to [long] (two's complement). *)
Definition to_long (z : Z) : Z :=
  let u := z mod 2 ^ 64 in
  if u <? 2 ^ 63 then u else u - 2 ^ 64.

(** The loop over the sentences of the batch. [embSize] is an [int];
    [beg] and [end_] are computed in [size_t], with its wrap-around, and
    added to [begin()] as signed offsets: the range from [begin() + beg]
    to [begin() + end_] must lie inside [sentVectors], in that order.
    The record is written under [(long)] of the sentence id. *)
Fixpoint collect (embeddings : Embeddings) (sentVectors : list float) (i : nat)
    (ids : list N) : Outcome (list (Z * list float)) :=
  match ids with
  | [] => Return []
  | id :: ids' =>
      embSize ← Shape_dim (emb_shape embeddings) (-1);
      let beg := (Z.of_nat i * embSize) mod 2 ^ 64 in
      let end_ := ((Z.of_nat i + 1) * embSize) mod 2 ^ 64 in
      let first := to_long beg in
      let last := to_long end_ in
      if (0 <=? first) && (first <=? last) && (last <=? Z.of_nat (length sentVectors)) then
        let sentVector :=
          take (Z.to_nat (last - first)) (drop (Z.to_nat first) sentVectors) in
        rest ← collect embeddings sentVectors (S i) ids';
        Return ((to_long (Z.of_N id), sentVector) :: rest)
      else Undefined
  end.

(** The thread-local variables of the task. *)
Record ThreadLocal (Model : Type) : Type := mkThreadLocal {
  tl_graph : option ExpressionGraph;
  tl_builder : option Model
}.
Arguments mkThreadLocal {Model}.
Arguments tl_graph {Model}.
Arguments tl_builder {Model}.

Definition ThreadLocal_init {Model : Type} : ThreadLocal Model :=
  mkThreadLocal None None.

(** The start of the task: the thread-local replica is set when the
    thread has none yet. *)
Definition select_replica {Model : Type} (e : Embed Model) (id : nat)
    (tl : ThreadLocal Model) : Outcome (ThreadLocal Model) :=
  match tl_graph tl with
  | None =>
      let n := length (graphs_ e) in
      if decide (n = 0%nat) then Undefined
      else
        g ← vector_at (graphs_ e) (id mod n);
        b ← vector_at (models_ e) (id mod n);
        Return (mkThreadLocal (Some g) (Some b))
  | Some _ => Return tl
  end.

(** What a task leaves behind: its index, the replica it ran on, and
    the records it wrote to the collector. *)
Record TaskTrace (Model : Type) : Type := mkTaskTrace {
  trace_id : nat;
  trace_graph : ExpressionGraph;
  trace_builder : Model;
  trace_written : list (Z * list float)
}.
Arguments mkTaskTrace {Model}.
Arguments trace_id {Model}.
Arguments trace_graph {Model}.
Arguments trace_builder {Model}.
Arguments trace_written {Model}.

(** The task of [run], on a thread with thread-local variables [tl]. *)
Definition task {Model : Type} `{ModelClass Model} (e : Embed Model)
    (batch : CorpusBatch) (id : nat) (tl : ThreadLocal Model)
    : Outcome (ThreadLocal Model * TaskTrace Model) :=
  tl' ← select_replica e id tl;
  graph ← deref (tl_graph tl');
  builder ← deref (tl_builder tl');
  embeddings ← Model_build builder graph batch;
  sentVectors ← extract embeddings;
  written ← collect embeddings sentVectors 0 (sentenceIds batch);
  Return (tl', mkTaskTrace id graph builder written).

(** The pool of [run]: the tasks are numbered in the order of the
    batches; [schedule] names, task by task, the worker thread that
    runs it. Each worker has its own thread-local variables. *)
Fixpoint run_tasks {Model : Type} `{ModelClass Model} (e : Embed Model)
    (batches : list CorpusBatch) (schedule : list nat) (batchId : nat)
    (tls : gmap nat (ThreadLocal Model))
    : Outcome (list (nat * TaskTrace Model)) :=
  match batches, schedule with
  | batch :: batches', w :: schedule' =>
      '(tl', tr) ← task e batch batchId (default ThreadLocal_init (tls !! w));
      rest ← run_tasks e batches' schedule' (S batchId) (<[w := tl']> tls);
      Return ((w, tr) :: rest)
  | _, _ => Return []
  end.

(** [run]: the collector is opened from the options, then the batches
    of the generator go through the pool. *)
Definition run {Model : Type} `{ModelClass Model} (e : Embed Model)
    (batches : list CorpusBatch) (schedule : list nat)
    : Outcome (list (nat * TaskTrace Model)) :=
  outputPath ← get_string (options_ e) "output";
  binary ← get_bool (options_ e) "binary";
  run_tasks e batches schedule 0 ∅.


(* ===================================================================== *)
(** ** Concrete layers and inputs *)
(* ===================================================================== *)

(** A graph whose parameters are 32-bit floats, and a layer base on it
    in each mode. *)
Definition graph_f32 : ExpressionGraph := mkExpressionGraph true float32 (Some 0%nat) 512.
Definition base_eval : Layer := mkLayer graph_f32 "ffn" eval.
Definition base_train : Layer := mkLayer graph_f32 "ffn" train.

(** Inputs of two rows: three 16-bit floats, and five 32-bit floats. *)
Definition x_f16 : Node := ConstantNode [2; 3] float16 (replicate 6 zero_f).
Definition x_f32 : Node := ConstantNode [2; 5] float32 (replicate 10 zero_f).

(** The literal [0.5f]. *)
Definition half_f : float := round_to binary32 1 (-1).

(** A mask of two sentences of three positions, [1 1 0] and [1 0 0]. *)
Definition mask_2x3 : Node :=
  ConstantNode [1; 2; 3; 1] float32 (float_lit <$> [1; 1; 0; 1; 0; 0]).

(* ===================================================================== *)
(** ** A concrete task *)
(* ===================================================================== *)

(** A model that remembers the device it was loaded on and embeds each
    sentence as two 32-bit floats. *)
Record ToyModel : Type := mkToyModel {
  toy_device : option DeviceId
}.

Global Instance ToyModel_class : ModelClass ToyModel := {|
  Model_new := fun _ => Return (mkToyModel None);
  Model_load := fun _ g _ => Return (mkToyModel (device g));
  Model_build := fun _ _ batch =>
    Return (mkEmbeddings float32 [Z.of_nat (batch_size batch); 2]
              (replicate (batch_size batch * 2) (float_lit 1)))
|}.

(** Options as a caller may give them: similarity requested, training
    settings for the two options the task overrides. *)
Definition options_similarity : Options :=
  list_to_map
    [("compute-similarity", VBool true);
     ("vocabs", VStrings ["vocab.spm"]);
     ("dim-vocabs", VSizes [32000%N]);
     ("inference", VBool false);
     ("shuffle", VString "data");
     ("workspace", VInt 512);
     ("model", VString "model.npz");
     ("output", VString "embeddings.txt");
     ("binary", VBool false)].

Definition options_plain : Options :=
  <["compute-similarity" := VBool false]> options_similarity.

(** Two devices. *)
Definition two_devices (o : Options) : list DeviceId := [0%nat; 1%nat].

(** The task on two replicas. *)
Definition embed_two : Embed ToyModel :=
  let o := <["shuffle" := VString "none"]> (<["inference" := VBool true]> options_plain) in
  {| options_ := o;
     corpus_ := mkCorpus o true;
     graphs_ := [mkExpressionGraph true float32 (Some 0%nat) 512;
                 mkExpressionGraph true float32 (Some 1%nat) 512];
     models_ := [mkToyModel (Some 0%nat); mkToyModel (Some 1%nat)];
     modelFile_ := mkModelWeights "model.npz" |}.

(** Three batches of one sentence each. *)
Definition three_batches : list CorpusBatch :=
  [mkCorpusBatch [0%N]; mkCorpusBatch [1%N]; mkCorpusBatch [2%N]].

(** ** The replica of a task, as two readings state it *)

(** Every task ran on the replica at its own index modulo the number of
    replicas. *)
Definition replica_by_task_index {Model : Type} (e : Embed Model)
    (traces : list (nat * TaskTrace Model)) : Prop :=
  forall (w : nat) (tr : TaskTrace Model),
    (w, tr) ∈ traces ->
    graphs_ e !! (trace_id tr mod length (graphs_ e))%nat = Some (trace_graph tr) /\
    models_ e !! (trace_id tr mod length (graphs_ e))%nat = Some (trace_builder tr).

(** [j] is the first task that [schedule] gives to worker [w]. *)
Definition first_task (schedule : list nat) (w j : nat) : Prop :=
  schedule !! j = Some w /\ forall j' : nat, (j' < j)%nat -> schedule !! j' <> Some w.

(** The replica at the index of task [j] modulo the replica count. *)
Definition replica_of {Model : Type} (e : Embed Model) (j : nat)
    (g : ExpressionGraph) (b : Model) : Prop :=
  graphs_ e !! (j mod length (graphs_ e))%nat = Some g /\
  models_ e !! (j mod length (graphs_ e))%nat = Some b.

(** The thread-local variables after the tasks of [done_]: a worker
    that ran none has none; a worker that ran some holds the replica of
    its first task. *)
Definition tls_inv {Model : Type} (e : Embed Model) (done_ : list nat)
    (tls : gmap nat (ThreadLocal Model)) : Prop :=
  forall w : nat,
    match tls !! w with
    | None => forall j : nat, done_ !! j <> Some w
    | Some tl => exists j g b,
        first_task done_ w j /\ tl = mkThreadLocal (Some g) (Some b) /\ replica_of e j g b
    end.

(* ===================================================================== *)
(** ** The log-mask, as the specification words it *)
(* ===================================================================== *)

(** The log-mask expression, as the transform builds it. *)
Definition logMask_expr (mask : Node) (dimHeads dimBatch dimSrcWords : Z) : Node :=
  ReshapeNode
    (RepeatNode
       (mult_scalar
          (scalar_minus (float_lit 1) (ReshapeNode mask [dimBatch; 1; 1; dimSrcWords]))
          (std_max (fdiv (NumericLimits_lowest (value_type mask)) (float_lit 2))
                   (float_lit (-100000000))))
       dimHeads (-3))
    [1; dimBatch * dimHeads; 1; dimSrcWords].

(** The element of the log-mask computed from a mask element, in the
    arithmetic of format [fmt]. *)
Definition logMask_elem (fmt : Z * Z) (t : Type_) (m : float) : float :=
  elem_mult_scalar fmt (elem_scalar_minus fmt (float_lit 1) m)
    (std_max (fdiv (NumericLimits_lowest t) (float_lit 2)) (float_lit (-100000000))).

(* ===================================================================== *)
(** ** neuralnet.h: activation and normalization layers *)
(* ===================================================================== *)

Module Activation.

(** [actFn] is any function from expressions to expressions. *)
Record t : Type := mk {
  layer : Layer;
  actFn : Node -> Node
}.

Definition apply (l : t) (x : Node) : Node := actFn l x.

End Activation.

(** [struct ReLU]: the activation layer of [relu]. *)
Definition ReLU (base : Layer) : Activation.t := Activation.mk base relu.

(** The expression a normalization layer returns, kept as the call it
    makes: the operator, the input, the scale and shift parameters
    (null when absent) and [eps]. *)
Inductive NormExpr : Type :=
| LayerNormExpr (x : Node) (gamma beta : Expr) (eps : float)
| RMSNormExpr (x : Node) (gamma beta : Expr) (eps : float).

Definition layerNorm (x : Node) (gamma beta : Expr) (eps : float) : NormExpr :=
  LayerNormExpr x gamma beta eps.
Definition rmsNorm (x : Node) (gamma beta : Expr) (eps : float) : NormExpr :=
  RMSNormExpr x gamma beta eps.

(** The literal [1e-5f]: the quotient of two floats is rounded as the
    decimal is. *)
Definition eps_default : float := fdiv (float_lit 1) (float_lit 100000).

Module LayerNorm.

Record t : Type := mk {
  layer : Layer;
  weight : Expr;
  bias : Expr;
  eps : float;
  elementwiseAffine : bool
}.

Definition new (base : Layer) (eps_ : float) (elementwiseAffine_ : bool) : t :=
  {| layer := base; weight := None; bias := None; eps := eps_;
     elementwiseAffine := elementwiseAffine_ |}.

Definition apply (l : t) (x : Node) : Outcome (t * NormExpr) :=
  dimModel ← Shape_dim (shape x) (-1);
  if elementwiseAffine l then
    weight' ← registerParameterLazy (layer l) "weight" (weight l) [dimModel] (Some ones);
    bias' ← registerParameterLazy (layer l) "bias" (bias l) [dimModel] (Some zeros);
    Return ({| layer := layer l; weight := weight'; bias := bias'; eps := eps l;
               elementwiseAffine := elementwiseAffine l |},
            layerNorm x weight' bias' (eps l))
  else
    Return (l, layerNorm x None None (eps l)).

End LayerNorm.

Module RMSNorm.

Record t : Type := mk {
  layer : Layer;
  weight : Expr;
  eps : float;
  elementwiseAffine : bool
}.

Definition new (base : Layer) (eps_ : float) (elementwiseAffine_ : bool) : t :=
  {| layer := base; weight := None; eps := eps_;
     elementwiseAffine := elementwiseAffine_ |}.

Definition apply (l : t) (x : Node) : Outcome (t * NormExpr) :=
  dimModel ← Shape_dim (shape x) (-1);
  if elementwiseAffine l then
    weight' ← registerParameterLazy (layer l) "weight" (weight l) [dimModel] (Some ones);
    Return ({| layer := layer l; weight := weight'; eps := eps l;
               elementwiseAffine := elementwiseAffine l |},
            rmsNorm x weight' None (eps l))
  else
    Return (l, rmsNorm x None None (eps l)).

End RMSNorm.

(* ===================================================================== *)
(** ** Values of floats, and the 16-bit floats *)
(* ===================================================================== *)

(** Two floats denote the same number (or the same infinity, or are
    both NaN), whatever the format each is written in. *)
Definition same_value (x y : float) : bool :=
  match x, y with
  | S754_zero s1, S754_zero s2 => Bool.eqb s1 s2
  | S754_infinity s1, S754_infinity s2 => Bool.eqb s1 s2
  | S754_nan, S754_nan => true
  | S754_finite s1 m1 e1, S754_finite s2 m2 e2 =>
      Bool.eqb s1 s2 &&
      (Z.pos m1 * 2 ^ (e1 - Z.min e1 e2) =? Z.pos m2 * 2 ^ (e2 - Z.min e1 e2))
  | _, _ => false
  end.

Definition is_finite (x : float) : bool :=
  match x with
  | S754_zero _ | S754_finite _ _ _ => true
  | _ => false
  end.

(** A test that holds of every positive number of at most [bits]
    binary digits. *)
Fixpoint forall_positive (bits : nat) (P : positive -> bool) : bool :=
  match bits with
  | O => true
  | S n =>
      P xH && forall_positive n (fun q => P (xO q))
           && forall_positive n (fun q => P (xI q))
  end.

(** A test that holds of every 16-bit float: of the zeros, the
    infinities, NaN, and every mantissa of at most 11 binary digits at
    every exponent from [-24] to [5]. *)
Definition forall_binary16 (P : float -> bool) : bool :=
  P (S754_zero false) && P (S754_zero true) &&
  P (S754_infinity false) && P (S754_infinity true) && P S754_nan &&
  forallb (fun e : Z =>
    forall_positive 11 (fun m : positive =>
      P (S754_finite false m e) && P (S754_finite true m e)))
    ((fun k : nat => Z.of_nat k - 24) <$> seq 0 30).

(** A value of a multiplicative 1/0 mask of 16-bit floats. *)
Definition is_mask_value16 (v : float) : bool :=
  match v with
  | S754_zero _ => true
  | _ => SFeqb v (convert binary16 (float_lit 1))
  end.

(** A second input of last dimension five: four batches of three rows. *)
Definition x_3x5 : Node := ConstantNode [4; 3; 5] float32 (replicate 60 zero_f).

(** A probability that the test [p > 0.f] rejects: NaN, a zero, or a
    negative number. *)
Definition not_positive (p : float) : bool :=
  match p with
  | S754_nan | S754_zero _ => true
  | S754_infinity s | S754_finite s _ _ => s
  end.

(* ===================================================================== *)
(** * Properties *)
(* ===================================================================== *)

(** ** Lists and layouts *)

Section Layout.
Context {A : Type}.
Implicit Types (l c : list A).

Lemma length_join_replicate c (r : nat) :
  length (mjoin (replicate r c)) = (r * length c)%nat.
Proof.
  induction r as [|r IH]; simpl; [reflexivity|].
  rewrite length_app, IH. reflexivity.
Qed.

Lemma lookup_join_replicate c (r h s : nat) :
  (h < r)%nat -> (s < length c)%nat ->
  mjoin (replicate r c) !! (h * length c + s)%nat = c !! s.
Proof.
  revert h. induction r as [|r IH]; intros h Hh Hs; [lia|].
  simpl. destruct h as [|h].
  - simpl. apply lookup_app_l. exact Hs.
  - rewrite lookup_app_r by (simpl; lia).
    replace (S h * length c + s - length c)%nat with (h * length c + s)%nat
      by (simpl; lia).
    apply IH; lia.
Qed.

Lemma length_repeat_blocks (outer blk r : nat) l :
  length l = (outer * blk)%nat ->
  length (repeat_blocks outer blk r l) = (outer * r * blk)%nat.
Proof.
  revert l. induction outer as [|o IH]; intros l Hl; simpl; [reflexivity|].
  rewrite length_app, length_join_replicate, length_take_le by (simpl in Hl; lia).
  rewrite IH by (rewrite length_drop; simpl in Hl; lia). lia.
Qed.

(** Element [s] of copy [h] of block [b] is element [s] of block [b]. *)
Lemma lookup_repeat_blocks (outer blk r b h s : nat) l :
  length l = (outer * blk)%nat ->
  (b < outer)%nat -> (h < r)%nat -> (s < blk)%nat ->
  repeat_blocks outer blk r l !! ((b * r + h) * blk + s)%nat = l !! (b * blk + s)%nat.
Proof.
  revert l b. induction outer as [|o IH]; intros l b Hl Hb Hh Hs; [lia|].
  simpl in Hl. simpl repeat_blocks.
  assert (Htake : length (take blk l) = blk) by (apply length_take_le; lia).
  destruct b as [|b].
  - rewrite lookup_app_l by (rewrite length_join_replicate, Htake; simpl; nia).
    simpl. rewrite <- Htake at 1.
    rewrite lookup_join_replicate by (rewrite ?Htake; lia).
    apply lookup_take_lt. exact Hs.
  - rewrite lookup_app_r by (rewrite length_join_replicate, Htake; simpl; nia).
    rewrite length_join_replicate, Htake.
    replace ((S b * r + h) * blk + s - r * blk)%nat
      with ((b * r + h) * blk + s)%nat by (simpl; nia).
    rewrite IH by (rewrite ?length_drop; lia).
    rewrite lookup_drop. f_equal. simpl. lia.
Qed.

Lemma foldl_snoc_fmap {B : Type} (f : A -> B) l (acc : list B) :
  foldl (fun acc v => acc ++ [f v]) acc l = acc ++ (f <$> l).
Proof.
  revert acc. induction l as [|x l IH]; intros acc; simpl.
  - symmetry. apply app_nil_r.
  - rewrite IH, <- app_assoc. reflexivity.
Qed.
End Layout.

(** ** Shapes *)

Lemma Shape_axis_neg (s : Shape) (k : nat) :
  (0 < k <= length s)%nat ->
  Shape_axis s (- Z.of_nat k) = Some (length s - k)%nat.
Proof.
  intros Hk. unfold Shape_axis.
  destruct (Z.leb_spec 0 (- Z.of_nat k)) as [H0|H0]; [lia|].
  destruct (Z.leb_spec 0 (Z.of_nat (length s) + - Z.of_nat k)) as [H1|H1]; [|lia].
  destruct (Z.ltb_spec (Z.of_nat (length s) + - Z.of_nat k) (Z.of_nat (length s)))
    as [H2|H2]; [|lia].
  simpl. f_equal. lia.
Qed.

Lemma Shape_dim_neg (s : Shape) (k : nat) (d : Z) :
  (0 < k <= length s)%nat ->
  s !! (length s - k)%nat = Some d ->
  Shape_dim s (- Z.of_nat k) = Return d.
Proof.
  intros Hk Hd. unfold Shape_dim. rewrite Shape_axis_neg by exact Hk.
  rewrite Hd. reflexivity.
Qed.

Lemma Shape_dim_last (pre : Shape) (d : Z) :
  Shape_dim (pre ++ [d]) (-1) = Return d.
Proof.
  apply (Shape_dim_neg _ 1).
  - rewrite length_app. simpl. lia.
  - rewrite length_app. simpl.
    replace (length pre + 1 - 1)%nat with (length pre + 0)%nat by lia.
    rewrite lookup_app_r by lia.
    replace (length pre + 0 - length pre)%nat with 0%nat by lia. reflexivity.
Qed.

Lemma Shape_dim_last2 (pre : Shape) (d2 d1 : Z) :
  Shape_dim (pre ++ [d2; d1]) (-2) = Return d2 /\
  Shape_dim (pre ++ [d2; d1]) (-1) = Return d1.
Proof.
  split.
  - apply (Shape_dim_neg _ 2).
    + rewrite length_app. simpl. lia.
    + rewrite length_app. simpl.
      rewrite lookup_app_r by lia.
      replace (length pre + 2 - 2 - length pre)%nat with 0%nat by lia. reflexivity.
  - replace (pre ++ [d2; d1]) with ((pre ++ [d2]) ++ [d1])
      by (rewrite <- app_assoc; reflexivity).
    apply Shape_dim_last.
Qed.

Lemma Shape_dim_last3 (pre : Shape) (d3 d2 d1 : Z) :
  Shape_dim (pre ++ [d3; d2; d1]) (-3) = Return d3 /\
  Shape_dim (pre ++ [d3; d2; d1]) (-2) = Return d2.
Proof.
  split.
  - apply (Shape_dim_neg _ 3).
    + rewrite length_app. simpl. lia.
    + rewrite length_app. simpl.
      rewrite lookup_app_r by lia.
      replace (length pre + 3 - 3 - length pre)%nat with 0%nat by lia. reflexivity.
  - replace (pre ++ [d3; d2; d1]) with ((pre ++ [d3]) ++ [d2; d1])
      by (rewrite <- app_assoc; reflexivity).
    apply Shape_dim_last2.
Qed.

(** ** The mask transform *)

(** The literal [-99999999.f] is the float [-1e8]: binary32 has a
    spacing of 8 at that magnitude. *)
Lemma float_lit_99999999 :
  float_lit (-99999999) = float_lit (-100000000) /\
  float_to_Z (float_lit (-99999999)) = Some (-100000000).
Proof. split; vm_compute; reflexivity. Qed.

(** For a 32-bit (and a 64-bit) float mask the factor is [-1e8]; for a
    16-bit one it is half the lowest value, [-32752]. *)
Lemma maskFactor_values :
  float_to_Z (maskFactor float32) = Some (-100000000) /\
  float_to_Z (maskFactor float64) = Some (-100000000) /\
  float_to_Z (maskFactor float16) = Some (-32752).
Proof. repeat split; vm_compute; reflexivity. Qed.

(** In binary32, a mask value of zero (of either sign) gives [-1e8]. *)
Lemma masked_position_float32 (sgn : bool) :
  float_to_Z (elem_mult_scalar binary32
                (elem_scalar_minus binary32 (float_lit 1) (S754_zero sgn))
                (maskFactor float32)) = Some (-100000000).
Proof. destruct sgn; vm_compute; reflexivity. Qed.


Lemma bind_Return {A B : Type} (a : A) (k : A -> Outcome B) :
  (Return a ≫= k) = k a.
Proof. reflexivity. Qed.

Lemma reshape_returns (a : Node) (s : Shape) :
  Shape_elements (shape a) = Shape_elements s ->
  reshape a s = Return (ReshapeNode a s).
Proof. intros H. unfold reshape. rewrite H, Z.eqb_refl. reflexivity. Qed.

Lemma repeat_returns (a : Node) (r ax : Z) (i : nat) :
  1 <= r -> Shape_axis (shape a) ax = Some i ->
  repeat a r ax = Return (RepeatNode a r ax).
Proof.
  intros Hr Hax. unfold repeat. rewrite Hax.
  destruct (Z.ltb_spec r 1); [lia|reflexivity].
Qed.

Lemma int_mul_returns (a b : Z) :
  - 2 ^ 31 <= a * b < 2 ^ 31 -> int_mul a b = Return (a * b).
Proof.
  intros H. unfold int_mul.
  destruct (Z.leb_spec (- 2 ^ 31) (a * b)); [|lia].
  destruct (Z.ltb_spec (a * b) (2 ^ 31)); [reflexivity|lia].
Qed.

Lemma transposedLogMask_returns (mask : Node) (dimHeads dimBatch dimSrcWords last : Z)
    (pre : Shape) :
  shape mask = pre ++ [dimBatch; dimSrcWords; last] ->
  Shape_elements (shape mask) = dimBatch * dimSrcWords ->
  1 <= dimHeads ->
  - 2 ^ 31 <= dimBatch * dimHeads < 2 ^ 31 ->
  transposedLogMask (Some mask) dimHeads
  = Return (Some (logMask_expr mask dimHeads dimBatch dimSrcWords)).
Proof.
  intros Hshape Helems Hheads Hrange.
  unfold transposedLogMask.
  destruct (Shape_dim_last3 pre dimBatch dimSrcWords last) as [H3 H2].
  rewrite Hshape, H3, H2, !bind_Return.
  rewrite reshape_returns, bind_Return
    by (rewrite Helems; unfold Shape_elements; simpl; lia).
  rewrite (repeat_returns _ _ _ 1%nat), bind_Return by (trivial; reflexivity).
  rewrite int_mul_returns, bind_Return by exact Hrange.
  rewrite reshape_returns, bind_Return
    by (unfold Shape_elements; simpl; lia).
  unfold logMask_expr, maskFactor.
  destruct float_lit_99999999 as [-> _]. reflexivity.
Qed.


Lemma forward_logMask_expr (mask : Node) (dimHeads dimBatch dimSrcWords : Z)
    (fmt : Z * Z) (vals : list float) :
  float_format (value_type mask) = Some fmt ->
  forward mask = Some vals ->
  forward (logMask_expr mask dimHeads dimBatch dimSrcWords)
  = Some (repeat_blocks (Z.to_nat dimBatch) (Z.to_nat dimSrcWords) (Z.to_nat dimHeads)
            (logMask_elem fmt (value_type mask) <$> vals)).
Proof.
  intros Hfmt Hvals. unfold logMask_expr, mult_scalar, scalar_minus.
  cbn [forward shape value_type].
  replace (Shape_axis [dimBatch; 1; 1; dimSrcWords] (-3)) with (Some 1%nat)
    by reflexivity.
  rewrite Hfmt, Hvals. cbn [mbind option_bind take drop].
  rewrite <- list_fmap_compose.
  replace (Shape_elements [dimBatch]) with dimBatch
    by (unfold Shape_elements; simpl; lia).
  replace (Shape_elements [1; 1; dimSrcWords]) with dimSrcWords
    by (unfold Shape_elements; simpl; lia).
  reflexivity.
Qed.

(** C1. For a non-null mask of shape [(.., dimBatch, dimSrcWords, 1)]
    and a head count [dimHeads], the transform returns the expression
    [(1 - mask) * maskFactor], with [maskFactor] the maximum of half the
    lowest value of the element type and [-1e8], laid out once per head:
    element [s] of head [h] of batch entry [b] is computed from mask
    element [s] of batch entry [b]. The literal [-99999999.f] of the
    code is the float [-1e8], and in a 32-bit float mask every masked
    position (value zero) gets exactly [-1e8]. *)
Theorem transposedLogMask_computes_log_mask
    (mask : Node) (dimHeads dimBatch dimSrcWords last : Z) (pre : Shape) :
  shape mask = pre ++ [dimBatch; dimSrcWords; last] ->
  Shape_elements (shape mask) = dimBatch * dimSrcWords ->
  0 <= dimBatch -> 0 <= dimSrcWords -> 1 <= dimHeads ->
  dimBatch * dimHeads < 2 ^ 31 ->
  let logMask := logMask_expr mask dimHeads dimBatch dimSrcWords in
  transposedLogMask (Some mask) dimHeads = Return (Some logMask) /\
  shape logMask = [1; dimBatch * dimHeads; 1; dimSrcWords] /\
  value_type logMask = value_type mask /\
  (forall (fmt : Z * Z) (vals : list float),
      float_format (value_type mask) = Some fmt ->
      forward mask = Some vals ->
      length vals = Z.to_nat (dimBatch * dimSrcWords) ->
      exists out : list float,
        forward logMask = Some out /\
        length out = Z.to_nat (dimBatch * dimHeads * dimSrcWords) /\
        forall b h s : nat,
          Z.of_nat b < dimBatch -> Z.of_nat h < dimHeads -> Z.of_nat s < dimSrcWords ->
          out !! ((b * Z.to_nat dimHeads + h) * Z.to_nat dimSrcWords + s)%nat
          = logMask_elem fmt (value_type mask)
              <$> vals !! (b * Z.to_nat dimSrcWords + s)%nat) /\
  (value_type mask = float32 ->
   forall vals : list float,
      forward mask = Some vals ->
      length vals = Z.to_nat (dimBatch * dimSrcWords) ->
      exists out : list float,
        forward logMask = Some out /\
        forall (b h s : nat) (sgn : bool),
          Z.of_nat b < dimBatch -> Z.of_nat h < dimHeads -> Z.of_nat s < dimSrcWords ->
          vals !! (b * Z.to_nat dimSrcWords + s)%nat = Some (S754_zero sgn) ->
          exists v : float,
            out !! ((b * Z.to_nat dimHeads + h) * Z.to_nat dimSrcWords + s)%nat = Some v /\
            float_to_Z v = Some (-100000000)).
Proof.
  intros Hshape Helems HB HS HH Hrange logMask.
  assert (Hvalues : forall (fmt : Z * Z) (vals : list float),
      float_format (value_type mask) = Some fmt ->
      forward mask = Some vals ->
      length vals = Z.to_nat (dimBatch * dimSrcWords) ->
      exists out : list float,
        forward logMask = Some out /\
        length out = Z.to_nat (dimBatch * dimHeads * dimSrcWords) /\
        forall b h s : nat,
          Z.of_nat b < dimBatch -> Z.of_nat h < dimHeads -> Z.of_nat s < dimSrcWords ->
          out !! ((b * Z.to_nat dimHeads + h) * Z.to_nat dimSrcWords + s)%nat
          = logMask_elem fmt (value_type mask)
              <$> vals !! (b * Z.to_nat dimSrcWords + s)%nat).
  { intros fmt vals Hfmt Hvals Hlen.
    eexists. split; [apply forward_logMask_expr; eassumption|].
    assert (Hlen' : length (logMask_elem fmt (value_type mask) <$> vals)
                    = (Z.to_nat dimBatch * Z.to_nat dimSrcWords)%nat)
      by (rewrite length_fmap, Hlen; lia).
    split.
    - rewrite length_repeat_blocks by exact Hlen'. lia.
    - intros b h s Hb Hh Hs.
      rewrite lookup_repeat_blocks by (trivial; lia).
      apply list_lookup_fmap. }
  split; [|split; [|split; [|split]]].
  - apply transposedLogMask_returns with (last := last) (pre := pre); trivial. lia.
  - reflexivity.
  - reflexivity.
  - exact Hvalues.
  - intros Ht vals Hvals Hlen.
    destruct (Hvalues binary32 vals) as (out & Hout & _ & Hlookup); trivial.
    { rewrite Ht. reflexivity. }
    exists out. split; [exact Hout|].
    intros b h s sgn Hb Hh Hs Hzero.
    rewrite Hlookup, Hzero by assumption. eexists. split; [reflexivity|].
    rewrite Ht. unfold logMask_elem.
    destruct float_lit_99999999 as [<- _]. apply masked_position_float32.
Qed.

(** C9. A null mask gives a null result; a non-null mask never does,
    and for a mask of a shape the transform accepts the result is the
    log-mask expression built from that mask,
    [(1 - mask) * maskFactor] laid out per head. *)
Theorem transposedLogMask_null_iff_null (dimHeads : Z) :
  transposedLogMask None dimHeads = Return None /\
  (forall mask : Node, transposedLogMask (Some mask) dimHeads <> Return None) /\
  (forall (mask : Node) (dimBatch dimSrcWords last : Z) (pre : Shape),
      shape mask = pre ++ [dimBatch; dimSrcWords; last] ->
      Shape_elements (shape mask) = dimBatch * dimSrcWords ->
      1 <= dimHeads ->
      - 2 ^ 31 <= dimBatch * dimHeads < 2 ^ 31 ->
      transposedLogMask (Some mask) dimHeads
      = Return (Some (logMask_expr mask dimHeads dimBatch dimSrcWords))).
Proof.
  split; [reflexivity|]. split.
  - intros mask. unfold transposedLogMask.
    destruct (Shape_dim (shape mask) (-3)) as [dimBatch| |]; [|discriminate..].
    rewrite bind_Return.
    destruct (Shape_dim (shape mask) (-2)) as [dimSrcWords| |]; [|discriminate..].
    rewrite bind_Return.
    destruct (reshape mask _) as [mask'| |]; [|discriminate..].
    rewrite bind_Return.
    destruct (repeat _ dimHeads (-3)) as [rep| |]; [|discriminate..].
    rewrite bind_Return.
    destruct (int_mul dimBatch dimHeads) as [bh| |]; [|discriminate..].
    rewrite bind_Return.
    destruct (reshape rep _) as [logMask| |]; discriminate.
  - intros mask dimBatch dimSrcWords last pre Hshape Helems Hheads Hrange.
    eapply transposedLogMask_returns; eassumption.
Qed.

(** ** Layers *)

Lemma shape_cast (a : Node) (t : Type_) : shape (cast a t) = shape a.
Proof. unfold cast. destruct (decide (value_type a = t)); reflexivity. Qed.

Lemma cast_of_type (a : Node) (t : Type_) : value_type a = t -> cast a t = a.
Proof. intros H. unfold cast. destruct (decide (value_type a = t)); congruence. Qed.

Lemma Shape_set_last_snoc (pre : Shape) (d k : Z) :
  Shape_set_last (pre ++ [d]) k = pre ++ [k].
Proof.
  unfold Shape_set_last. rewrite length_app. simpl.
  replace (pred (length pre + 1)) with (length pre + 0)%nat by lia.
  rewrite insert_app_r. reflexivity.
Qed.

(** The weight shapes [Linear] binds fit the product it asks for. *)
Lemma inner_dims_match_weight (x w : Node) (pre : Shape) (d k : Z) (tr : bool) :
  shape x = pre ++ [d] ->
  shape w = (if tr then [k; d] else [d; k]) ->
  inner_dims_match x w false tr = true /\
  product_shape (shape x) (shape w) false tr = pre ++ [k].
Proof.
  intros Hx Hw. unfold inner_dims_match, product_shape. rewrite Hx, Hw, last_snoc.
  destruct tr; simpl; rewrite Shape_set_last_snoc;
    (split; [apply bool_decide_eq_true; reflexivity|reflexivity]).
Qed.

Lemma registerParameterLazy_same (l : Layer) (name : string) (p : Node)
    (s : Shape) (init : option NodeInitializer) :
  shape p = s -> registerParameterLazy l name (Some p) s init = Return (Some p).
Proof. intros Hs. unfold registerParameterLazy. rewrite decide_True; trivial. Qed.

Lemma registerParameterLazy_other (l : Layer) (name : string) (p : Node)
    (s : Shape) (init : option NodeInitializer) :
  shape p <> s -> registerParameterLazy l name (Some p) s init = Undefined.
Proof. intros Hs. unfold registerParameterLazy. rewrite decide_False; trivial. Qed.

(** The two outcomes of the binder: the slot bound to a parameter of
    the required shape (the one it held, or a new one), or no
    behaviour, on a slot bound to a parameter of another shape. *)
Lemma registerParameterLazy_cases (l : Layer) (name : string) (slot : Expr)
    (s : Shape) (init : option NodeInitializer) :
  (exists p : Node,
      registerParameterLazy l name slot s init = Return (Some p) /\
      shape p = s /\
      (forall q, slot = Some q -> p = q) /\
      (slot = None -> p = ParamNode (path l +:+ "_" +:+ name) s
                            (defaultElementType (graph l)) init)) \/
  (registerParameterLazy l name slot s init = Undefined /\
   exists q : Node, slot = Some q /\ shape q <> s).
Proof.
  unfold registerParameterLazy. destruct slot as [q|].
  - destruct (decide (shape q = s)) as [Hs|Hs].
    + left. exists q. repeat split; congruence.
    + right. eauto.
  - left. eexists. repeat split; congruence.
Qed.

(** The binder of the weight, under the member [transposed]. *)
Lemma register_weight_cases (l : Linear.t) (dimIn : Z) :
  let s := if Linear.transposed l then [Linear.dimOut l; dimIn]
           else [dimIn; Linear.dimOut l] in
  let r := if Linear.transposed l
           then registerParameterLazy (Linear.layer l) "weight" (Linear.weight l)
                  [Linear.dimOut l; dimIn] (Linear.init l)
           else registerParameterLazy (Linear.layer l) "weight" (Linear.weight l)
                  [dimIn; Linear.dimOut l] (Linear.init l) in
  (exists w : Node,
      r = Return (Some w) /\ shape w = s /\
      (forall q, Linear.weight l = Some q -> w = q) /\
      (Linear.weight l = None ->
       w = ParamNode (path (Linear.layer l) +:+ "_weight") s
             (defaultElementType (graph (Linear.layer l))) (Linear.init l))) \/
  r = Undefined.
Proof.
  intros s r. subst s r.
  destruct (Linear.transposed l).
  - destruct (registerParameterLazy_cases (Linear.layer l) "weight" (Linear.weight l)
                [Linear.dimOut l; dimIn] (Linear.init l)) as [(w & Hw & Hrest)|[Hu _]];
      [left; exists w; split; [exact Hw|exact Hrest] | right; exact Hu].
  - destruct (registerParameterLazy_cases (Linear.layer l) "weight" (Linear.weight l)
                [dimIn; Linear.dimOut l] (Linear.init l)) as [(w & Hw & Hrest)|[Hu _]];
      [left; exists w; split; [exact Hw|exact Hrest] | right; exact Hu].
Qed.

(** The binder of the bias, under the member [useBias]. *)
Lemma register_bias_cases (l : Linear.t) :
  let r := if Linear.useBias l
           then registerParameterLazy (Linear.layer l) "bias" (Linear.bias l)
                  [Linear.dimOut l] (Some zeros)
           else Return (Linear.bias l) in
  (exists bias' : Expr,
      r = Return bias' /\
      (Linear.useBias l = true -> is_Some bias') /\
      (Linear.useBias l = false -> bias' = Linear.bias l) /\
      (forall q, Linear.bias l = Some q -> bias' = Some q) /\
      (Linear.useBias l = true -> Linear.bias l = None ->
       bias' = Some (ParamNode (path (Linear.layer l) +:+ "_bias") [Linear.dimOut l]
                       (defaultElementType (graph (Linear.layer l))) (Some zeros)))) \/
  r = Undefined.
Proof.
  intros r. subst r. destruct (Linear.useBias l).
  - destruct (registerParameterLazy_cases (Linear.layer l) "bias" (Linear.bias l)
                [Linear.dimOut l] (Some zeros)) as [(b & Hb & _ & Hkeep & Hnew)|[Hu _]];
      [left|right; exact Hu].
    exists (Some b). split; [exact Hb|]. split; [eauto|]. split; [discriminate|].
    split; [intros q Hq; f_equal; apply Hkeep; exact Hq|].
    intros _ Hnone. f_equal. apply Hnew. exact Hnone.
  - left. exists (Linear.bias l). split; [reflexivity|]. split; [discriminate|].
    split; [reflexivity|]. split; [intros q Hq; exact Hq|discriminate].
Qed.

Lemma inner_dims_match_cast (x w : Node) (t : Type_) (tA tB : bool) :
  inner_dims_match x (cast w t) tA tB = inner_dims_match x w tA tB.
Proof. unfold inner_dims_match. rewrite shape_cast. reflexivity. Qed.

(** What a returning [Linear::apply] did. *)
Lemma Linear_apply_inv (l l' : Linear.t) (x y : Node) :
  Linear.apply l x = Return (l', y) ->
  exists (dimIn : Z) (w : Node) (bias' : Expr),
    Shape_dim (shape x) (-1) = Return dimIn /\
    (forall q, Linear.weight l = Some q -> w = q) /\
    (Linear.useBias l = true -> is_Some bias') /\
    (Linear.useBias l = false -> bias' = Linear.bias l) /\
    (forall q, Linear.bias l = Some q -> bias' = Some q) /\
    inner_dims_match x w false (Linear.transposed l) = true /\
    l' = Linear.mk (Linear.layer l) (Some w) bias'
           (Linear.dimOut l) (Linear.useBias l) (Linear.transposed l) (Linear.init l) /\
    shape y = product_shape (shape x) (shape w) false (Linear.transposed l) /\
    value_type y = value_type x.
Proof.
  unfold Linear.apply.
  destruct (Shape_dim (shape x) (-1)) as [dimIn| |]; [|discriminate..].
  rewrite bind_Return.
  destruct (register_weight_cases l dimIn) as [(w & -> & _ & Hkeep & _)| ->];
    [|discriminate].
  rewrite bind_Return.
  destruct (register_bias_cases l) as [(bias' & -> & Hsome & Hoff & Hbkeep & _)| ->];
    [|discriminate].
  rewrite bind_Return. cbv zeta. intros Happ.
  exists dimIn, w, bias'. split; [reflexivity|]. split; [exact Hkeep|].
  split; [exact Hsome|]. split; [exact Hoff|]. split; [exact Hbkeep|].
  destruct (Linear.useBias l) eqn:Hbias.
  - destruct (Hsome eq_refl) as [b ->].
    cbn [deref] in Happ. rewrite !bind_Return in Happ.
    unfold affine in Happ. rewrite inner_dims_match_cast in Happ.
    destruct (inner_dims_match x w false _); [|discriminate].
    rewrite bind_Return in Happ. injection Happ as <- <-.
    repeat split. simpl. rewrite shape_cast. reflexivity.
  - cbn [deref] in Happ. rewrite !bind_Return in Happ.
    unfold dot in Happ. rewrite inner_dims_match_cast in Happ.
    destruct (inner_dims_match x w false _); [|discriminate].
    rewrite bind_Return in Happ. injection Happ as <- <-.
    repeat split. simpl. rewrite shape_cast. reflexivity.
Qed.

(** When the parameters have the element type of the input, the cast
    of [Linear::apply] changes nothing: the affine transform of the
    fused layer is [Linear::apply] on its base layer. *)
Lemma LinearReluDropout_affine_part_same_type (l : LinearReluDropout.t) (x : Node) :
  defaultElementType (graph (Linear.layer (LinearReluDropout.linear l))) = value_type x ->
  (forall w, Linear.weight (LinearReluDropout.linear l) = Some w ->
             value_type w = value_type x) ->
  (forall c, Linear.bias (LinearReluDropout.linear l) = Some c ->
             value_type c = value_type x) ->
  LinearReluDropout.affine_part l x
  = '(b', y) ← Linear.apply (LinearReluDropout.linear l) x;
    Return (LinearReluDropout.mk b' (LinearReluDropout.dropoutProbabilty l)
              (LinearReluDropout.dropoutMaskShape l), y).
Proof.
  intros Hdflt Hw Hc.
  unfold LinearReluDropout.affine_part, Linear.apply.
  destruct (Shape_dim (shape x) (-1)) as [dimIn| |]; [|reflexivity..].
  rewrite !bind_Return. cbv zeta.
  destruct (register_weight_cases (LinearReluDropout.linear l) dimIn)
    as [(w & -> & _ & Hkeep & Hnew)| ->]; [|reflexivity].
  rewrite !bind_Return.
  destruct (register_bias_cases (LinearReluDropout.linear l))
    as [(bias' & -> & Hsome & _ & Hbkeep & Hbnew)| ->]; [|reflexivity].
  rewrite !bind_Return.
  assert (Htw : value_type w = value_type x).
  { destruct (Linear.weight (LinearReluDropout.linear l)) as [q|] eqn:E.
    - rewrite (Hkeep q eq_refl). apply Hw. reflexivity.
    - rewrite (Hnew eq_refl). exact Hdflt. }
  destruct (Linear.useBias (LinearReluDropout.linear l)) eqn:Hbias.
  - destruct (Hsome eq_refl) as [c ->].
    assert (Htc : value_type c = value_type x).
    { destruct (Linear.bias (LinearReluDropout.linear l)) as [q|] eqn:E.
      - pose proof (Hbkeep q eq_refl) as Hq. injection Hq as ->. apply Hc. reflexivity.
      - pose proof (Hbnew eq_refl eq_refl) as Hq. injection Hq as ->. exact Hdflt. }
    cbn [deref]. rewrite !bind_Return.
    rewrite (cast_of_type w), (cast_of_type c) by assumption.
    unfold affine. destruct (inner_dims_match _ _ _ _); [|reflexivity].
    rewrite !bind_Return. reflexivity.
  - cbn [deref]. rewrite !bind_Return.
    rewrite (cast_of_type w) by assumption.
    unfold dot. destruct (inner_dims_match _ _ _ _); [|reflexivity].
    rewrite !bind_Return. reflexivity.
Qed.

(** X3. On a layer whose slots are unbound, [Linear::apply] binds a
    weight of shape [(d, k)], or [(k, d)] when the member [transposed]
    is set, and a zero-initialized bias of shape [(k)] when the bias is
    enabled; it multiplies the input by these parameters cast to its
    element type, and the result has the shape of the input with the
    last dimension replaced by [k]. *)
Lemma Linear_apply_unbound (l : Linear.t) (x : Node) (pre : Shape) (d : Z) :
  Linear.weight l = None -> Linear.bias l = None ->
  shape x = pre ++ [d] ->
  exists (l' : Linear.t) (y w : Node),
    Linear.apply l x = Return (l', y) /\
    Linear.weight l' = Some w /\
    w = ParamNode (path (Linear.layer l) +:+ "_weight")
          (if Linear.transposed l then [Linear.dimOut l; d] else [d; Linear.dimOut l])
          (defaultElementType (graph (Linear.layer l))) (Linear.init l) /\
    Linear.bias l' =
      (if Linear.useBias l
       then Some (ParamNode (path (Linear.layer l) +:+ "_bias") [Linear.dimOut l]
                    (defaultElementType (graph (Linear.layer l))) (Some zeros))
       else None) /\
    y = (if Linear.useBias l
         then AffineNode x (cast w (value_type x))
                (cast (ParamNode (path (Linear.layer l) +:+ "_bias") [Linear.dimOut l]
                         (defaultElementType (graph (Linear.layer l))) (Some zeros))
                      (value_type x))
                false (Linear.transposed l)
         else DotNode x (cast w (value_type x)) false (Linear.transposed l)) /\
    shape y = pre ++ [Linear.dimOut l].
Proof.
  intros Hw Hb Hx. unfold Linear.apply.
  rewrite Hx, Shape_dim_last, bind_Return, Hw, Hb.
  set (w := ParamNode (path (Linear.layer l) +:+ "_weight")
          (if Linear.transposed l then [Linear.dimOut l; d] else [d; Linear.dimOut l])
          (defaultElementType (graph (Linear.layer l))) (Linear.init l)).
  assert (Hreg : (if Linear.transposed l
                  then registerParameterLazy (Linear.layer l) "weight" None
                         [Linear.dimOut l; d] (Linear.init l)
                  else registerParameterLazy (Linear.layer l) "weight" None
                         [d; Linear.dimOut l] (Linear.init l)) = Return (Some w))
    by (unfold w; destruct (Linear.transposed l); reflexivity).
  rewrite Hreg, bind_Return.
  destruct (inner_dims_match_weight x (cast w (value_type x)) pre d (Linear.dimOut l)
              (Linear.transposed l) Hx) as [Hinner Hprod].
  { rewrite shape_cast. unfold w. destruct (Linear.transposed l); reflexivity. }
  destruct (Linear.useBias l) eqn:Hbias; cbn [registerParameterLazy];
    rewrite bind_Return; cbv zeta; simpl deref; rewrite !bind_Return.
  - unfold affine. rewrite Hinner, bind_Return.
    eexists _, _, w. repeat split. simpl. exact Hprod.
  - unfold dot. rewrite Hinner, bind_Return.
    eexists _, _, w. repeat split. simpl. exact Hprod.
Qed.

Lemma SFeqb_zero_not_positive (p : float) :
  SFeqb p zero_f = true -> SFltb zero_f p = false.
Proof.
  unfold SFeqb, SFltb, zero_f.
  destruct p as [[]|[]| |[] m e]; simpl; intros H; congruence.
Qed.

(** C3. [Dropout::apply] returns its input in eval mode, and also when
    the probability is zero, whatever the mode and whether or not a
    mask shape is configured; so with probability zero the train mode
    behaves as the eval mode. *)
Theorem Dropout_apply_identity (l : Dropout.t) (x : Node) :
  getMode (Dropout.layer l) = eval \/ SFeqb (Dropout.dropoutProbabilty l) zero_f = true ->
  Dropout.apply l x = Return x /\
  Dropout.apply l x
  = Dropout.apply
      (Dropout.mk (mkLayer (graph (Dropout.layer l)) (path (Dropout.layer l)) eval)
                  (Dropout.dropoutProbabilty l) (Dropout.dropoutMaskShape l)) x.
Proof.
  intros H.
  assert (Hid : Dropout.apply l x = Return x).
  { unfold Dropout.apply. destruct H as [-> | Hp]; [reflexivity|].
    rewrite (SFeqb_zero_not_positive _ Hp).
    destruct (getMode (Dropout.layer l)); [|reflexivity].
    destruct (Dropout.dropoutMaskShape l); reflexivity. }
  split; [exact Hid|]. rewrite Hid. reflexivity.
Qed.

(** The affine transform of the fused layer: what it returns, when it
    returns, is the product of the input with the parameters in the
    slots, uncast; the dropout configuration and the mode are kept. *)
Lemma LinearReluDropout_affine_part_inv (l l' : LinearReluDropout.t) (x output : Node) :
  LinearReluDropout.affine_part l x = Return (l', output) ->
  LinearReluDropout.dropoutProbabilty l' = LinearReluDropout.dropoutProbabilty l /\
  LinearReluDropout.dropoutMaskShape l' = LinearReluDropout.dropoutMaskShape l /\
  Linear.layer (LinearReluDropout.linear l') = Linear.layer (LinearReluDropout.linear l) /\
  exists w : Node,
    Linear.weight (LinearReluDropout.linear l') = Some w /\
    if Linear.useBias (LinearReluDropout.linear l)
    then exists b : Node,
        Linear.bias (LinearReluDropout.linear l') = Some b /\
        output = AffineNode x w b false (Linear.transposed (LinearReluDropout.linear l))
    else output = DotNode x w false (Linear.transposed (LinearReluDropout.linear l)).
Proof.
  unfold LinearReluDropout.affine_part.
  destruct (Shape_dim (shape x) (-1)) as [dimIn| |]; [|discriminate..].
  rewrite bind_Return. cbv zeta.
  destruct (register_weight_cases (LinearReluDropout.linear l) dimIn)
    as [(w & -> & _)| ->]; [|discriminate].
  rewrite bind_Return.
  destruct (register_bias_cases (LinearReluDropout.linear l))
    as [(bias' & -> & Hsome & _)| ->]; [|discriminate].
  rewrite bind_Return. cbv zeta.
  destruct (Linear.useBias (LinearReluDropout.linear l)) eqn:Hbias.
  - destruct (Hsome eq_refl) as [b ->]. simpl deref. rewrite !bind_Return.
    unfold affine. destruct (inner_dims_match _ _ _ _); [|discriminate].
    rewrite bind_Return. intros [= <- <-]. simpl. eauto 10.
  - simpl deref. rewrite !bind_Return.
    unfold dot. destruct (inner_dims_match _ _ _ _); [|discriminate].
    rewrite bind_Return. intros [= <- <-]. simpl. eauto 10.
Qed.

(** C4. After the affine transform, [LinearReluDropout::apply] branches
    on the mode: ReLU alone in eval mode; in train mode with a
    probability above zero the fused dropout and ReLU, on the configured
    mask shape or else on the two trailing dimensions of the output; in
    train mode with probability zero ReLU alone. *)
Theorem LinearReluDropout_apply_branches
    (l l' : LinearReluDropout.t) (x output : Node) :
  LinearReluDropout.affine_part l x = Return (l', output) ->
  let p := LinearReluDropout.dropoutProbabilty l in
  let m := getMode (Linear.layer (LinearReluDropout.linear l)) in
  let b := LinearReluDropout.linear l in
  (exists w : Node,
      Linear.weight (LinearReluDropout.linear l') = Some w /\
      if Linear.useBias b
      then exists c : Node,
          Linear.bias (LinearReluDropout.linear l') = Some c /\
          output = AffineNode x w c false (Linear.transposed b)
      else output = DotNode x w false (Linear.transposed b)) /\
  (m = eval -> LinearReluDropout.apply l x = Return (l', relu output)) /\
  (m = train -> SFltb zero_f p = true ->
   forall maskShape : Shape,
     LinearReluDropout.dropoutMaskShape l = Some maskShape ->
     LinearReluDropout.apply l x
     = Return (l', dropoutReluInplace output p maskShape)) /\
  (m = train -> SFltb zero_f p = true ->
   LinearReluDropout.dropoutMaskShape l = None ->
   forall (pre : Shape) (d2 d1 : Z),
     shape output = pre ++ [d2; d1] ->
     LinearReluDropout.apply l x
     = Return (l', dropoutReluInplace output p [d2; d1])) /\
  (m = train -> SFeqb p zero_f = true ->
   LinearReluDropout.apply l x = Return (l', relu output)).
Proof.
  intros Haff p m b.
  destruct (LinearReluDropout_affine_part_inv _ _ _ _ Haff)
    as (Hp & Hms & Hlayer & Hout).
  split; [exact Hout|].
  unfold LinearReluDropout.apply. rewrite Haff, bind_Return.
  unfold LinearReluDropout.activation_part. rewrite Hp, Hms, Hlayer.
  fold p m. repeat split.
  - intros ->. reflexivity.
  - intros -> Hpos maskShape ->. rewrite Hpos. reflexivity.
  - intros -> Hpos -> pre d2 d1 Hshape. rewrite Hpos, Hshape.
    destruct (Shape_dim_last2 pre d2 d1) as [-> ->]. reflexivity.
  - intros -> Hzero. rewrite (SFeqb_zero_not_positive _ Hzero).
    destruct (LinearReluDropout.dropoutMaskShape l); reflexivity.
Qed.

(** When the parameters have the element type of the input, the cast
    of [Linear::apply] changes nothing, and the fused layer in eval mode
    is ReLU after [Linear::apply]. *)
Lemma LinearReluDropout_eval_same_type (l : LinearReluDropout.t) (x : Node) :
  getMode (Linear.layer (LinearReluDropout.linear l)) = eval ->
  defaultElementType (graph (Linear.layer (LinearReluDropout.linear l))) = value_type x ->
  (forall w, Linear.weight (LinearReluDropout.linear l) = Some w ->
             value_type w = value_type x) ->
  (forall c, Linear.bias (LinearReluDropout.linear l) = Some c ->
             value_type c = value_type x) ->
  LinearReluDropout.apply l x
  = '(b', y) ← Linear.apply (LinearReluDropout.linear l) x;
    Return (LinearReluDropout.mk b' (LinearReluDropout.dropoutProbabilty l)
              (LinearReluDropout.dropoutMaskShape l), relu y).
Proof.
  intros Hmode Hdflt Hw Hc.
  unfold LinearReluDropout.apply.
  rewrite LinearReluDropout_affine_part_same_type by assumption.
  destruct (Linear.apply (LinearReluDropout.linear l) x) as [[b' y]| |] eqn:Happ;
    [|reflexivity..].
  rewrite !bind_Return. cbn beta iota.
  destruct (Linear_apply_inv _ _ _ _ Happ)
    as (dimIn & w & bias' & _ & _ & _ & _ & _ & _ & -> & _).
  unfold LinearReluDropout.activation_part.
  cbn [LinearReluDropout.linear Linear.layer]. rewrite Hmode, !bind_Return. reflexivity.
Qed.

(** C2. On a 16-bit float input with 32-bit float parameters, in eval
    mode, [Linear::apply] multiplies by the parameters cast to 16 bits,
    while [LinearReluDropout::apply] multiplies by the parameters as
    they are: the fused result is not ReLU of the result of
    [Linear::apply]. *)
Theorem LinearReluDropout_eval_omits_cast :
  let W := ParamNode "ffn_weight" [3; 4] float32 (Some glorotUniform) in
  let b := ParamNode "ffn_bias" [4] float32 (Some zeros) in
  exists (l1 : LinearReluDropout.t) (l2 : Linear.t) (y1 y2 : Node),
    LinearReluDropout.apply
      (LinearReluDropout.new base_eval 4 zero_f true false glorotUniform) x_f16
    = Return (l1, y1) /\
    Linear.apply (Linear.new base_eval 4 true false glorotUniform) x_f16
    = Return (l2, y2) /\
    y1 = relu (AffineNode x_f16 W b false false) /\
    y2 = AffineNode x_f16 (CastNode W float16) (CastNode b float16) false false /\
    y1 <> relu y2.
Proof.
  intros W b. do 4 eexists.
  split; [reflexivity|]. split; [reflexivity|].
  split; [reflexivity|]. split; [reflexivity|].
  discriminate.
Qed.

(** The constructors of [Linear] leave the member [transposed] at its
    default, whatever the argument. *)
Lemma Linear_new_transposed (base : Layer) (k : Z) (useBias_ transposed_ : bool)
    (init_ : NodeInitializer) :
  Linear.transposed (Linear.new base k useBias_ transposed_ init_) = false.
Proof. reflexivity. Qed.

(** C5. A [Linear] layer constructed with [dimOut = 3] and
    [transposed = true], applied to an input of shape [(2, 5)], binds a
    weight of shape [(5, 3)], not [(3, 5)]: the constructor does not
    store its argument [transposed]. The bias has shape [(3)] and is
    zero-initialized, and the result has shape [(2, 3)]. *)
Theorem Linear_new_transposed_binds_untransposed :
  exists (l' : Linear.t) (y w : Node),
    Linear.apply (Linear.new base_eval 3 true true glorotUniform) x_f32 = Return (l', y) /\
    Linear.weight l' = Some w /\
    shape w = [5; 3] /\
    shape w <> [3; 5] /\
    Linear.bias l' = Some (ParamNode "ffn_bias" [3] float32 (Some zeros)) /\
    shape y = [2; 3].
Proof.
  do 3 eexists. split; [reflexivity|]. split; [reflexivity|].
  split; [reflexivity|]. split; [discriminate|]. split; reflexivity.
Qed.

(** ** The Embed task: options *)

Lemma mapM_Return_Forall2 {A B : Type} (f : A -> Outcome B) (l : list A) (k : list B) :
  mapM f l = Return k -> Forall2 (fun x y => f x = Return y) l k.
Proof.
  revert k. induction l as [|x l IH]; intros k; simpl.
  - intros [= <-]. constructor.
  - destruct (f x) as [y| |] eqn:Hfx; [|discriminate..]. rewrite bind_Return.
    destruct (mapM f l) as [k'| |]; [|discriminate..]. rewrite bind_Return.
    intros [= <-]. constructor; [exact Hfx|]. apply IH. reflexivity.
Qed.

Lemma Embed_graph_inference (o : Options) (dev : DeviceId) (g : ExpressionGraph) :
  Embed_graph o dev = Return g -> inference g = true /\ device g = Some dev.
Proof.
  unfold Embed_graph.
  destruct (get_strings_default _ _ _) as [precison| |]; [|discriminate..].
  rewrite bind_Return.
  destruct (vector_at precison 0) as [p0| |]; [|discriminate..]. rewrite bind_Return.
  destruct (typeFromString p0) as [t| |]; [|discriminate..]. rewrite bind_Return.
  destruct (get_int _ _) as [ws| |]; [|discriminate..]. rewrite bind_Return.
  intros [= <-]. split; reflexivity.
Qed.

(** What the constructor leaves in the task. *)
Lemma Embed_new_inv {Model : Type} `{ModelClass Model}
    (getDevices : Options -> list DeviceId) (options : Options) (e : Embed Model) :
  Embed_new getDevices options = Return e ->
  Embed_options options = Return (options_ e) /\
  corpus_options (corpus_ e) = options_ e /\
  Forall (fun g => inference g = true) (graphs_ e).
Proof.
  unfold Embed_new.
  destruct (Embed_options options) as [o| |]; [|discriminate..]. rewrite bind_Return.
  destruct (mapM (Embed_graph o) (getDevices o)) as [gs| |] eqn:Hgs; [|discriminate..].
  rewrite bind_Return.
  destruct (get_string o "model") as [mp| |]; [|discriminate..]. rewrite bind_Return.
  destruct (mapM _ gs) as [ms| |]; [|discriminate..]. rewrite bind_Return.
  intros [= <-]. simpl. repeat split.
  apply mapM_Return_Forall2 in Hgs.
  induction Hgs as [|dev g devs gs' Hg _ IH]; constructor; [|exact IH].
  apply (Embed_graph_inference _ _ _ Hg).
Qed.

Lemma Embed_options_overrides (options o' : Options) :
  Embed_options options = Return o' ->
  o' !! "inference" = Some (VBool true) /\ o' !! "shuffle" = Some (VString "none").
Proof.
  unfold Embed_options, Options_with.
  destruct (get_bool options "compute-similarity") as [[]| |]; [| |discriminate..];
    rewrite bind_Return.
  - destruct (get_strings _ "vocabs") as [vs| |]; [|discriminate..]. rewrite bind_Return.
    destruct (get_sizes _ "dim-vocabs") as [ds| |]; [|discriminate..]. rewrite bind_Return.
    destruct (push_back_back vs) as [vs'| |]; [|discriminate..]. rewrite bind_Return.
    destruct (push_back_back ds) as [ds'| |]; [|discriminate..]. rewrite bind_Return.
    intros [= <-]. split; simplify_map_eq; reflexivity.
  - intros [= <-]. split; simplify_map_eq; reflexivity.
Qed.

(** C10. Whatever the options given say, the options the task works
    with have ["inference"] true and ["shuffle"] ["none"]; the corpus is
    built from these options, and every graph is an inference graph. *)
Theorem Embed_new_inference_unshuffled {Model : Type} `{ModelClass Model}
    (getDevices : Options -> list DeviceId) (options : Options) (e : Embed Model) :
  Embed_new getDevices options = Return e ->
  options_ e !! "inference" = Some (VBool true) /\
  options_ e !! "shuffle" = Some (VString "none") /\
  corpus_options (corpus_ e) !! "inference" = Some (VBool true) /\
  corpus_options (corpus_ e) !! "shuffle" = Some (VString "none") /\
  Forall (fun g => inference g = true) (graphs_ e).
Proof.
  intros Hnew. destruct (Embed_new_inv _ _ _ Hnew) as (Hopt & -> & Hgraphs).
  destruct (Embed_options_overrides _ _ Hopt) as [Hinf Hshuf].
  repeat split; assumption.
Qed.

(** C7. With the similarity flag set, the vocabulary list and the
    dim-vocabs list of the task each end with their last element twice,
    and the input types are ["sequence"] once per vocabulary; with the
    flag unset the three options are as given. These are the options
    of every task the constructor returns. *)
Theorem Embed_options_similarity (options : Options) :
  (forall (vs : list string) (v : string) (ds : list N) (d : N),
      options !! "compute-similarity" = Some (VBool true) ->
      options !! "vocabs" = Some (VStrings (vs ++ [v])) ->
      options !! "dim-vocabs" = Some (VSizes (ds ++ [d])) ->
      exists o' : Options,
        Embed_options options = Return o' /\
        o' !! "vocabs" = Some (VStrings (vs ++ [v; v])) /\
        o' !! "dim-vocabs" = Some (VSizes (ds ++ [d; d])) /\
        o' !! "input-types"
        = Some (VStrings (replicate (length (vs ++ [v; v])) "sequence"))) /\
  (options !! "compute-similarity" = Some (VBool false) ->
   exists o' : Options,
     Embed_options options = Return o' /\
     o' !! "vocabs" = options !! "vocabs" /\
     o' !! "dim-vocabs" = options !! "dim-vocabs" /\
     o' !! "input-types" = options !! "input-types") /\
  (forall (Model : Type) (M : ModelClass Model)
          (getDevices : Options -> list DeviceId) (e : Embed Model),
      Embed_new getDevices options = Return e ->
      Embed_options options = Return (options_ e)).
Proof.
  split; [|split].
  - intros vs v ds d Hflag Hvocabs Hdims.
    unfold Embed_options, Options_with, get_bool, get_strings, get_sizes, Options_get.
    rewrite Hflag, !bind_Return.
    rewrite !lookup_insert_ne by discriminate.
    rewrite Hvocabs, Hdims, !bind_Return.
    unfold push_back_back. rewrite !last_snoc, !bind_Return.
    eexists. split; [reflexivity|].
    rewrite <- !app_assoc. simpl.
    repeat split; simplify_map_eq; reflexivity.
  - intros Hflag.
    unfold Embed_options, Options_with, get_bool, Options_get.
    rewrite Hflag, !bind_Return.
    eexists. split; [reflexivity|].
    repeat split; simplify_map_eq; reflexivity.
  - intros Model M getDevices e Hnew.
    apply (Embed_new_inv _ _ _ Hnew).
Qed.

(** ** The Embed task: extraction *)

(** C6. The element type of the embeddings selects the extraction:
    32-bit floats are copied as they are, 16-bit floats are widened one
    by one, and any other type aborts with a diagnostic that names it. *)
Theorem extract_by_value_type (t : Type_) (s : Shape) (val : list float) :
  extract (mkEmbeddings t s val)
  = match t with
    | float32 => Return val
    | float16 => Return (float16_to_float <$> val)
    | _ => Abort ("Unknown embedding type " +:+ Type_name t)
    end.
Proof.
  unfold extract, Tensor_get. simpl.
  destruct t; try reflexivity.
  simpl. rewrite foldl_snoc_fmap. reflexivity.
Qed.

(** Widening is exact: the 16-bit floats [1.5] and [-65504] widen to
    the 32-bit floats of the same value. *)
Lemma float16_to_float_examples :
  float16_to_float (round_to binary16 3 (-1)) = round_to binary32 3 (-1) /\
  float_to_Z (float16_to_float (SFopp (SFmax_float 11 16))) = Some (-65504).
Proof. split; vm_compute; reflexivity. Qed.

(** A task whose embeddings have an unsupported element type aborts. *)
Lemma task_unsupported_type_aborts {Model : Type} `{ModelClass Model}
    (e : Embed Model) (batch : CorpusBatch) (id : nat) (tl : ThreadLocal Model)
    (g : ExpressionGraph) (b : Model) (emb : Embeddings) :
  select_replica e id tl = Return (mkThreadLocal (Some g) (Some b)) ->
  Model_build b g batch = Return emb ->
  emb_value_type emb <> float32 -> emb_value_type emb <> float16 ->
  task e batch id tl
  = Abort ("Unknown embedding type " +:+ Type_name (emb_value_type emb)).
Proof.
  intros Hsel Hbuild H32 H16. unfold task.
  rewrite Hsel, bind_Return. simpl deref. rewrite !bind_Return, Hbuild, bind_Return.
  unfold extract.
  destruct (decide (emb_value_type emb = float32)); [contradiction|].
  destruct (decide (emb_value_type emb = float16)); [contradiction|].
  reflexivity.
Qed.

(** ** The Embed task: replicas *)

Section Replicas.
Context {Model : Type} `{ModelClass Model}.
Variable e : Embed Model.

Lemma select_replica_fresh (id : nat) (tl' : ThreadLocal Model) :
  select_replica e id ThreadLocal_init = Return tl' ->
  exists g b, tl' = mkThreadLocal (Some g) (Some b) /\ replica_of e id g b.
Proof.
  unfold select_replica, replica_of, vector_at. simpl.
  destruct (decide (length (graphs_ e) = 0%nat)); [discriminate|].
  destruct (graphs_ e !! _) as [g|]; [|discriminate]. rewrite bind_Return.
  destruct (models_ e !! _) as [b|]; [|discriminate]. rewrite bind_Return.
  intros [= <-]. eauto.
Qed.

Lemma select_replica_cached (id : nat) (g : ExpressionGraph) (b : Model) :
  select_replica e id (mkThreadLocal (Some g) (Some b))
  = Return (mkThreadLocal (Some g) (Some b)).
Proof. reflexivity. Qed.

Lemma task_inv (batch : CorpusBatch) (id : nat) (tl tl' : ThreadLocal Model)
    (tr : TaskTrace Model) :
  task e batch id tl = Return (tl', tr) ->
  select_replica e id tl = Return tl' /\
  trace_id tr = id /\
  tl' = mkThreadLocal (Some (trace_graph tr)) (Some (trace_builder tr)).
Proof.
  unfold task.
  destruct (select_replica e id tl) as [[g b]| |]; [|discriminate..].
  rewrite bind_Return. cbn [tl_graph tl_builder].
  destruct g as [g|]; [|discriminate]. cbn [deref]. rewrite bind_Return.
  destruct b as [b|]; [|discriminate]. cbn [deref]. rewrite bind_Return.
  destruct (Model_build b g batch) as [emb| |]; [|discriminate..]. rewrite bind_Return.
  destruct (extract emb) as [sv| |]; [|discriminate..]. rewrite bind_Return.
  destruct (collect _ _ _ _) as [written| |]; [|discriminate..]. rewrite bind_Return.
  intros [= <- <-]. repeat split.
Qed.

Lemma first_task_app (l1 l2 : list nat) (w j : nat) :
  first_task l1 w j -> first_task (l1 ++ l2) w j.
Proof.
  intros [Hj Hmin]. assert (j < length l1)%nat by (eapply lookup_lt_Some; eauto).
  split.
  - rewrite lookup_app_l by assumption. exact Hj.
  - intros j' Hlt. rewrite lookup_app_l by lia. apply Hmin. exact Hlt.
Qed.

Lemma first_task_fresh (l1 l2 : list nat) (w : nat) :
  (forall j : nat, l1 !! j <> Some w) -> first_task (l1 ++ w :: l2) w (length l1).
Proof.
  intros Hnot. split.
  - rewrite lookup_app_r by lia. rewrite Nat.sub_diag. reflexivity.
  - intros j' Hlt. rewrite lookup_app_l by lia. apply Hnot.
Qed.

Lemma run_tasks_replicas (batches : list CorpusBatch) :
  forall (schedule done_ : list nat) (tls : gmap nat (ThreadLocal Model))
         (traces : list (nat * TaskTrace Model)),
    tls_inv e done_ tls ->
    run_tasks e batches schedule (length done_) tls = Return traces ->
    forall (k w : nat) (tr : TaskTrace Model),
      traces !! k = Some (w, tr) ->
      schedule !! k = Some w /\
      trace_id tr = (length done_ + k)%nat /\
      exists j : nat,
        first_task (done_ ++ schedule) w j /\
        replica_of e j (trace_graph tr) (trace_builder tr).
Proof.
  induction batches as [|batch batches IH]; intros schedule done_ tls traces Hinv.
  { simpl. intros [= <-] k w tr Hk. discriminate. }
  destruct schedule as [|w0 schedule].
  { simpl. intros [= <-] k w tr Hk. discriminate. }
  simpl run_tasks.
  destruct (task e batch (length done_) _) as [[tl' tr0]| |] eqn:Htask;
    [|discriminate..].
  rewrite bind_Return.
  destruct (run_tasks e batches schedule (S (length done_)) _) as [rest| |] eqn:Hrest;
    [|discriminate..].
  rewrite bind_Return. intros [= <-].
  destruct (task_inv _ _ _ _ _ Htask) as (Hsel & Hid & Htl').
  (* the replica of the first task of [w0] *)
  assert (Hfirst : exists j, first_task (done_ ++ w0 :: schedule) w0 j /\
                             first_task (done_ ++ [w0]) w0 j /\
                             replica_of e j (trace_graph tr0) (trace_builder tr0)).
  { specialize (Hinv w0). destruct (tls !! w0) as [tl|] eqn:Hw0; simpl in Hsel.
    - destruct Hinv as (j & g & b & Hj & -> & Hrep).
      rewrite select_replica_cached in Hsel. injection Hsel as <-.
      injection Htl' as <- <-.
      exists j. split; [|split]; [apply first_task_app..|]; assumption.
    - apply select_replica_fresh in Hsel as (g & b & -> & Hrep).
      injection Htl' as <- <-.
      exists (length done_). split; [|split];
        [apply first_task_fresh; exact Hinv
        |apply (first_task_fresh done_ []); exact Hinv
        |exact Hrep]. }
  destruct Hfirst as (j0 & Hj0 & Hj0' & Hrep0).
  (* the invariant after the task *)
  assert (Hinv' : tls_inv e (done_ ++ [w0]) (<[w0 := tl']> tls)).
  { intros w. destruct (decide (w = w0)) as [->|Hne].
    - rewrite lookup_insert_eq. exists j0, (trace_graph tr0), (trace_builder tr0).
      split; [exact Hj0'|]. split; [exact Htl'|exact Hrep0].
    - rewrite lookup_insert_ne by congruence. specialize (Hinv w).
      destruct (tls !! w) as [tl|].
      + destruct Hinv as (j & g & b & Hj & Htl & Hrep).
        exists j, g, b. split; [apply first_task_app; exact Hj|]. split; assumption.
      + intros j Hj. apply lookup_app_Some in Hj as [Hj|[_ Hj]].
        * exact (Hinv j Hj).
        * apply list_lookup_singleton_Some in Hj as [_ ?]. congruence. }
  replace (S (length done_)) with (length (done_ ++ [w0])) in Hrest
    by (rewrite length_app; simpl; lia).
  intros k w tr Hk. destruct k as [|k]; simpl in Hk.
  - injection Hk as <- <-. split; [reflexivity|]. split; [lia|].
    exists j0. split; assumption.
  - destruct (IH _ _ _ _ Hinv' Hrest k w tr Hk) as (Hs & Hidk & j & Hj & Hrep).
    split; [exact Hs|]. split; [rewrite Hidk, length_app; simpl; lia|].
    exists j. rewrite <- app_assoc in Hj. split; assumption.
Qed.
End Replicas.

Lemma first_task_unique (schedule : list nat) (w j1 j2 : nat) :
  first_task schedule w j1 -> first_task schedule w j2 -> j1 = j2.
Proof.
  intros [H1 M1] [H2 M2].
  destruct (Nat.lt_trichotomy j1 j2) as [Hlt|[Heq|Hgt]]; [|exact Heq|].
  - destruct (M2 j1 Hlt H1).
  - destruct (M1 j2 Hgt H2).
Qed.

(** C8, as amended. Every task runs on the replica its worker thread
    holds in its thread-local variables: the replica at index
    [j mod replicaCount], where [j] is the index of the first task that
    worker ran. A worker therefore uses one replica for all its tasks,
    and a task with index [i] runs on replica [i mod replicaCount] when
    it is the first task of its worker. *)
Theorem run_replica_of_first_task {Model : Type} `{ModelClass Model}
    (e : Embed Model) (batches : list CorpusBatch) (schedule : list nat)
    (traces : list (nat * TaskTrace Model)) :
  run e batches schedule = Return traces ->
  (forall (k w : nat) (tr : TaskTrace Model),
      traces !! k = Some (w, tr) ->
      schedule !! k = Some w /\
      trace_id tr = k /\
      exists j : nat,
        first_task schedule w j /\
        graphs_ e !! (j mod length (graphs_ e))%nat = Some (trace_graph tr) /\
        models_ e !! (j mod length (graphs_ e))%nat = Some (trace_builder tr)) /\
  (forall (k1 k2 w : nat) (tr1 tr2 : TaskTrace Model),
      traces !! k1 = Some (w, tr1) -> traces !! k2 = Some (w, tr2) ->
      trace_graph tr1 = trace_graph tr2 /\ trace_builder tr1 = trace_builder tr2).
Proof.
  unfold run.
  destruct (get_string _ _) as [outputPath| |]; [|discriminate..]. rewrite bind_Return.
  destruct (get_bool _ _) as [binary| |]; [|discriminate..]. rewrite bind_Return.
  intros Hrun.
  assert (Hinv : tls_inv e [] (∅ : gmap nat (ThreadLocal Model))).
  { intros w. rewrite lookup_empty. intros j. rewrite lookup_nil. discriminate. }
  pose proof (run_tasks_replicas e batches schedule [] ∅ traces Hinv Hrun) as Hall.
  split.
  - intros k w tr Hk. destruct (Hall k w tr Hk) as (Hs & Hid & j & Hj & Hg & Hb).
    split; [exact Hs|]. split; [exact Hid|]. exists j.
    split; [exact Hj|]. split; assumption.
  - intros k1 k2 w tr1 tr2 Hk1 Hk2.
    destruct (Hall k1 w tr1 Hk1) as (_ & _ & j1 & Hj1 & Hg1 & Hb1).
    destruct (Hall k2 w tr2 Hk2) as (_ & _ & j2 & Hj2 & Hg2 & Hb2).
    simpl in Hj1, Hj2. rewrite (first_task_unique _ _ _ _ Hj1 Hj2) in Hg1, Hb1.
    split; congruence.
Qed.

(** The constructor on two devices gives the task [embed_two]. *)
Lemma Embed_new_two_devices :
  Embed_new two_devices options_plain = Return embed_two.
Proof. vm_compute. reflexivity. Qed.

(** C8, as stated, fails. With two replicas, let one worker run task 0
    and the other run tasks 1 and 2: task 2 runs on replica 1, the
    replica of its worker, not on replica [2 mod 2 = 0]. *)
Lemma run_replica_not_by_task_index :
  exists traces : list (nat * TaskTrace ToyModel),
    run embed_two three_batches [0; 1; 1]%nat = Return traces /\
    ~ replica_by_task_index embed_two traces.
Proof.
  eexists. split; [vm_compute; reflexivity|].
  intros Hclaim.
  match type of Hclaim with
  | replica_by_task_index _ [_; _; (?w, ?tr)] =>
      destruct (Hclaim w tr) as [Hg _];
        [apply list_elem_of_lookup; exists 2%nat; reflexivity|]
  end.
  vm_compute in Hg. discriminate.
Qed.

(** ** The theorems at concrete inputs *)

Lemma transposedLogMask_computes_log_mask_witness :
  transposedLogMask (Some mask_2x3) 2 = Return (Some (logMask_expr mask_2x3 2 2 3)) /\
  shape (logMask_expr mask_2x3 2 2 3) = [1; 4; 1; 3] /\
  exists (out : list float) (v : float),
    forward (logMask_expr mask_2x3 2 2 3) = Some out /\
    out !! 5%nat = Some v /\
    float_to_Z v = Some (-100000000).
Proof.
  destruct (transposedLogMask_computes_log_mask mask_2x3 2 2 3 1 [1])
    as (Hret & Hshape & _ & _ & H32);
    [reflexivity | reflexivity | lia | lia | lia | lia |].
  split; [exact Hret|]. split; [exact Hshape|].
  destruct (H32 eq_refl (float_lit <$> [1; 1; 0; 1; 0; 0]) eq_refl eq_refl)
    as (out & Hout & Hpos).
  destruct (Hpos 0%nat 1%nat 2%nat false) as (v & Hv & Hz);
    [lia | lia | lia | reflexivity |].
  exists out, v. split; [exact Hout|]. split; [exact Hv|exact Hz].
Defined.

Lemma transposedLogMask_null_iff_null_witness :
  transposedLogMask None 2 = Return None /\
  transposedLogMask (Some mask_2x3) 2 <> Return None /\
  transposedLogMask (Some mask_2x3) 2 = Return (Some (logMask_expr mask_2x3 2 2 3)).
Proof.
  destruct (transposedLogMask_null_iff_null 2) as (Hnull & Hnonnull & Hret).
  split; [exact Hnull|]. split; [apply Hnonnull|].
  apply (Hret mask_2x3 2 3 1 [1]); [reflexivity | reflexivity | lia | lia].
Defined.

Lemma Dropout_apply_identity_witness :
  SFeqb (Dropout.dropoutProbabilty (Dropout.new_masked base_train zero_f [2; 5])) zero_f
  = true /\
  Dropout.apply (Dropout.new_masked base_train zero_f [2; 5]) x_f32 = Return x_f32.
Proof.
  split; [reflexivity|].
  destruct (Dropout_apply_identity (Dropout.new_masked base_train zero_f [2; 5]) x_f32)
    as [Hid _]; [right; reflexivity|exact Hid].
Defined.

Lemma LinearReluDropout_apply_branches_witness :
  exists (l' : LinearReluDropout.t) (output : Node),
    LinearReluDropout.affine_part
      (LinearReluDropout.new base_train 3 half_f true false glorotUniform) x_f32
    = Return (l', output) /\
    LinearReluDropout.apply
      (LinearReluDropout.new base_train 3 half_f true false glorotUniform) x_f32
    = Return (l', dropoutReluInplace output half_f [2; 3]).
Proof.
  do 2 eexists. split; [reflexivity|].
  refine (proj1 (proj2 (proj2 (proj2
            (LinearReluDropout_apply_branches
               (LinearReluDropout.new base_train 3 half_f true false glorotUniform)
               _ x_f32 _ eq_refl)))) eq_refl eq_refl eq_refl [] 2 3 eq_refl).
Defined.

Lemma Embed_options_similarity_witness :
  (exists o' : Options,
      Embed_options options_similarity = Return o' /\
      o' !! "vocabs" = Some (VStrings ["vocab.spm"; "vocab.spm"]) /\
      o' !! "dim-vocabs" = Some (VSizes [32000%N; 32000%N]) /\
      o' !! "input-types" = Some (VStrings ["sequence"; "sequence"])) /\
  (exists o' : Options,
      Embed_options options_plain = Return o' /\
      o' !! "vocabs" = Some (VStrings ["vocab.spm"]) /\
      o' !! "dim-vocabs" = Some (VSizes [32000%N]) /\
      o' !! "input-types" = None) /\
  Embed_options options_plain = Return (options_ embed_two).
Proof.
  split; [|split].
  - exact (proj1 (Embed_options_similarity options_similarity)
             [] "vocab.spm" [] 32000%N eq_refl eq_refl eq_refl).
  - exact (proj1 (proj2 (Embed_options_similarity options_plain)) eq_refl).
  - apply (proj2 (proj2 (Embed_options_similarity options_plain))
             ToyModel ToyModel_class two_devices embed_two).
    vm_compute. reflexivity.
Defined.

Lemma Embed_new_inference_unshuffled_witness :
  options_similarity !! "inference" = Some (VBool false) /\
  options_similarity !! "shuffle" = Some (VString "data") /\
  exists e : Embed ToyModel,
    Embed_new two_devices options_similarity = Return e /\
    options_ e !! "inference" = Some (VBool true) /\
    options_ e !! "shuffle" = Some (VString "none") /\
    corpus_options (corpus_ e) !! "inference" = Some (VBool true) /\
    corpus_options (corpus_ e) !! "shuffle" = Some (VString "none") /\
    Forall (fun g => inference g = true) (graphs_ e).
Proof.
  split; [reflexivity|]. split; [reflexivity|].
  eexists. split; [vm_compute; reflexivity|].
  apply (Embed_new_inference_unshuffled two_devices options_similarity).
  vm_compute. reflexivity.
Defined.

Lemma run_replica_of_first_task_witness :
  exists traces : list (nat * TaskTrace ToyModel),
    run embed_two three_batches [0; 1; 1]%nat = Return traces /\
    (forall (k w : nat) (tr : TaskTrace ToyModel),
        traces !! k = Some (w, tr) ->
        [0; 1; 1]%nat !! k = Some w /\
        trace_id tr = k /\
        exists j : nat,
          first_task [0; 1; 1]%nat w j /\
          graphs_ embed_two !! (j mod 2)%nat = Some (trace_graph tr) /\
          models_ embed_two !! (j mod 2)%nat = Some (trace_builder tr)) /\
    (forall (k1 k2 w : nat) (tr1 tr2 : TaskTrace ToyModel),
        traces !! k1 = Some (w, tr1) -> traces !! k2 = Some (w, tr2) ->
        trace_graph tr1 = trace_graph tr2 /\ trace_builder tr1 = trace_builder tr2).
Proof.
  eexists. split; [vm_compute; reflexivity|].
  apply (run_replica_of_first_task embed_two three_batches [0; 1; 1]%nat).
  vm_compute. reflexivity.
Defined.

(* ===================================================================== *)
(** * Further properties of the code *)
(* ===================================================================== *)

(** ** The 16-bit floats *)

Lemma forall_positive_spec (bits : nat) :
  forall (P : positive -> bool),
    forall_positive bits P = true ->
    forall p : positive, (Pos.to_nat (digits2_pos p) <= bits)%nat -> P p = true.
Proof.
  induction bits as [|n IH]; intros P Hall p Hp.
  - lia.
  - simpl in Hall. apply andb_true_iff in Hall as [Hall HI].
    apply andb_true_iff in Hall as [H1 HO].
    destruct p as [q|q|]; simpl in Hp.
    + apply (IH (fun q => P (xI q)) HI q). lia.
    + apply (IH (fun q => P (xO q)) HO q). lia.
    + exact H1.
Qed.

Lemma valid_binary16_bounds (s : bool) (m : positive) (e : Z) :
  valid_binary 11 16 (S754_finite s m e) = true ->
  (Pos.to_nat (digits2_pos m) <= 11)%nat /\ -24 <= e <= 5.
Proof.
  unfold valid_binary, bounded, canonical_mantissa, fexp, emin.
  intros H. apply andb_true_iff in H as [Hc He].
  apply Z.eqb_eq in Hc. apply Z.leb_le in He. lia.
Qed.

(** A test that passes on the enumeration holds of every valid 16-bit
    float. *)
Lemma forall_binary16_valid (P : float -> bool) :
  forall_binary16 P = true ->
  forall v : float, valid_binary 11 16 v = true -> P v = true.
Proof.
  unfold forall_binary16. intros H v Hv.
  apply andb_true_iff in H as [H Hfin]. apply andb_true_iff in H as [H Hnan].
  apply andb_true_iff in H as [H Hi1]. apply andb_true_iff in H as [H Hi0].
  apply andb_true_iff in H as [Hz0 Hz1].
  destruct v as [[]|[]| |s m e]; try assumption.
  destruct (valid_binary16_bounds s m e Hv) as [Hm He].
  rewrite forallb_forall in Hfin.
  assert (Hin_e : In e ((fun k : nat => Z.of_nat k - 24) <$> seq 0 30)).
  { apply in_map_iff. exists (Z.to_nat (e + 24)). split; [lia|]. apply in_seq. lia. }
  specialize (Hfin e Hin_e).
  pose proof (forall_positive_spec 11 _ Hfin m Hm) as Hboth. cbv beta in Hboth.
  apply andb_true_iff in Hboth as [Hf Ht].
  destruct s; assumption.
Qed.

(** X15. Widening a 16-bit float to a [float], as the extraction does
    element by element, is exact: the result is a valid 32-bit float of
    the same value. *)
Theorem float16_to_float_exact (v : float) :
  valid_binary 11 16 v = true ->
  same_value (float16_to_float v) v = true /\
  valid_binary 24 128 (float16_to_float v) = true.
Proof.
  intros Hv. apply andb_true_iff.
  apply (forall_binary16_valid
           (fun v => same_value (float16_to_float v) v
                     && valid_binary 24 128 (float16_to_float v))); [|exact Hv].
  vm_compute. reflexivity.
Qed.

(** ** The mask transform in reduced precision *)

Lemma elem_of_repeat_blocks {A : Type} (outer blk r : nat) (l : list A) (x : A) :
  x ∈ repeat_blocks outer blk r l -> x ∈ l.
Proof.
  revert l. induction outer as [|o IH]; intros l; simpl.
  - intros Hx. inversion Hx.
  - rewrite elem_of_app. intros [Hx|Hx].
    + apply list_elem_of_join in Hx as (c & Hxc & Hc).
      apply elem_of_replicate_inv in Hc as ->.
      exact (subseteq_take blk l x Hxc).
    + exact (subseteq_drop blk l x (IH _ Hx)).
Qed.

Lemma is_mask_value16_cases (v : float) :
  is_mask_value16 v = true ->
  (exists s, v = S754_zero s) \/ v = convert binary16 (float_lit 1).
Proof.
  unfold is_mask_value16, SFeqb, SFcompare.
  change (convert binary16 (float_lit 1)) with (S754_finite false 1024 (-10)).
  destruct v as [s|s| |s m e].
  - eauto.
  - destruct s; discriminate.
  - discriminate.
  - destruct s; [discriminate|].
    destruct (Z.compare_spec e (-10)) as [->| |]; try discriminate.
    rewrite Pos.compare_cont_spec. unfold Pos.switch_Eq.
    destruct (Pos.compare_spec m 1024) as [->| |]; try discriminate.
    intros _. right. reflexivity.
Qed.

(** X1. For a 1/0 mask of 16-bit floats, the log-mask has one value
    per batch entry, head and source position, each a finite, valid
    16-bit float: zero where the mask is one, and [-32752], half the
    lowest 16-bit float, where the mask is zero; [-1e8] itself
    overflows to minus infinity in 16 bits. *)
Theorem transposedLogMask_float16_finite
    (mask : Node) (dimHeads dimBatch dimSrcWords last : Z) (pre : Shape)
    (vals : list float) :
  value_type mask = float16 ->
  shape mask = pre ++ [dimBatch; dimSrcWords; last] ->
  Shape_elements (shape mask) = dimBatch * dimSrcWords ->
  0 <= dimBatch -> 0 <= dimSrcWords -> 1 <= dimHeads ->
  dimBatch * dimHeads < 2 ^ 31 ->
  forward mask = Some vals ->
  length vals = Z.to_nat (dimBatch * dimSrcWords) ->
  Forall (fun v => is_mask_value16 v = true) vals ->
  convert binary16 (float_lit (-99999999)) = S754_infinity true /\
  exists (logMask : Node) (out : list float),
    transposedLogMask (Some mask) dimHeads = Return (Some logMask) /\
    forward logMask = Some out /\
    length out = Z.to_nat (dimBatch * dimHeads * dimSrcWords) /\
    forall b h s : nat,
      Z.of_nat b < dimBatch -> Z.of_nat h < dimHeads -> Z.of_nat s < dimSrcWords ->
      exists m v : float,
        vals !! (b * Z.to_nat dimSrcWords + s)%nat = Some m /\
        out !! ((b * Z.to_nat dimHeads + h) * Z.to_nat dimSrcWords + s)%nat = Some v /\
        is_finite v = true /\
        valid_binary 11 16 v = true /\
        (m = convert binary16 (float_lit 1) -> v = S754_zero true) /\
        ((exists sgn, m = S754_zero sgn) -> float_to_Z v = Some (-32752)).
Proof.
  intros Ht Hshape Helems HB HS HH Hrange Hvals Hlen Hmask.
  split; [vm_compute; reflexivity|].
  eexists _, _. split; [eapply transposedLogMask_returns; try eassumption; lia|].
  split; [apply (forward_logMask_expr _ _ _ _ binary16 vals); [rewrite Ht|]; trivial|].
  assert (Hlen' : length (logMask_elem binary16 (value_type mask) <$> vals)
                  = (Z.to_nat dimBatch * Z.to_nat dimSrcWords)%nat)
    by (rewrite length_fmap, Hlen; lia).
  split; [rewrite length_repeat_blocks by exact Hlen'; lia|].
  intros b h s Hb Hh Hs.
  destruct (lookup_lt_is_Some_2 vals (b * Z.to_nat dimSrcWords + s)%nat) as [m Hm];
    [rewrite Hlen; nia|].
  exists m, (logMask_elem binary16 float16 m). split; [exact Hm|].
  split.
  { rewrite lookup_repeat_blocks by (trivial; lia).
    rewrite list_lookup_fmap, Hm, Ht. reflexivity. }
  rewrite Forall_lookup in Hmask.
  destruct (is_mask_value16_cases m (Hmask _ _ Hm)) as [[[] ->] | ->];
    (split; [vm_compute; reflexivity|]); (split; [vm_compute; reflexivity|]);
    (split; [intros Hone; try (vm_compute in Hone; discriminate Hone);
             vm_compute; reflexivity|]);
    intros [sgn Hzero]; try (vm_compute in Hzero; discriminate Hzero);
    vm_compute; reflexivity.
Qed.

(** In each floating-point format, a mask value of one gives a zero. *)
Lemma attended_position_zero (t : Type_) (fmt : Z * Z) :
  float_format t = Some fmt ->
  logMask_elem fmt t (convert fmt (float_lit 1)) = S754_zero true.
Proof. destruct t; intros [= <-]; vm_compute; reflexivity. Qed.

(** X2. In a mask of a floating-point type, a position to attend to
    (mask value one) gets a log-mask value of zero under every head:
    only the positions to ignore are penalized. *)
Theorem transposedLogMask_attended_zero
    (mask : Node) (dimHeads dimBatch dimSrcWords last : Z) (pre : Shape)
    (fmt : Z * Z) (vals : list float) :
  shape mask = pre ++ [dimBatch; dimSrcWords; last] ->
  Shape_elements (shape mask) = dimBatch * dimSrcWords ->
  0 <= dimBatch -> 0 <= dimSrcWords -> 1 <= dimHeads ->
  dimBatch * dimHeads < 2 ^ 31 ->
  float_format (value_type mask) = Some fmt ->
  forward mask = Some vals ->
  length vals = Z.to_nat (dimBatch * dimSrcWords) ->
  exists (logMask : Node) (out : list float),
    transposedLogMask (Some mask) dimHeads = Return (Some logMask) /\
    forward logMask = Some out /\
    forall b h s : nat,
      Z.of_nat b < dimBatch -> Z.of_nat h < dimHeads -> Z.of_nat s < dimSrcWords ->
      vals !! (b * Z.to_nat dimSrcWords + s)%nat = Some (convert fmt (float_lit 1)) ->
      out !! ((b * Z.to_nat dimHeads + h) * Z.to_nat dimSrcWords + s)%nat
      = Some (S754_zero true).
Proof.
  intros Hshape Helems HB HS HH Hrange Hfmt Hvals Hlen.
  eexists _, _.
  split; [eapply transposedLogMask_returns; try eassumption; lia|].
  split; [apply (forward_logMask_expr _ _ _ _ fmt vals); assumption|].
  intros b h s Hb Hh Hs Hone.
  rewrite lookup_repeat_blocks by (rewrite ?length_fmap, ?Hlen; lia).
  rewrite list_lookup_fmap, Hone. cbn [fmap option_fmap option_map]. f_equal.
  apply attended_position_zero. exact Hfmt.
Qed.

Lemma transposedLogMask_float16_finite_witness :
  exists (logMask : Node) (out : list float) (v0 v1 : float),
    transposedLogMask
      (Some (ConstantNode [1; 2; 3; 1] float16
               ((fun z => convert binary16 (float_lit z)) <$> [1; 1; 0; 1; 0; 0]))) 2
    = Return (Some logMask) /\
    forward logMask = Some out /\
    length out = 12%nat /\
    out !! 3%nat = Some v1 /\ v1 = S754_zero true /\
    out !! 5%nat = Some v0 /\ float_to_Z v0 = Some (-32752).
Proof.
  destruct (transposedLogMask_float16_finite
              (ConstantNode [1; 2; 3; 1] float16
                 ((fun z => convert binary16 (float_lit z)) <$> [1; 1; 0; 1; 0; 0]))
              2 2 3 1 [1]
              ((fun z => convert binary16 (float_lit z)) <$> [1; 1; 0; 1; 0; 0]))
    as (_ & logMask & out & Hret & Hout & Hlen & Hpos);
    [reflexivity | reflexivity | reflexivity | lia | lia | lia | lia
    | reflexivity | reflexivity | repeat constructor |].
  destruct (Hpos 0%nat 1%nat 0%nat) as (m1 & v1 & Hm1 & Hv1 & _ & _ & Hone & _);
    [lia | lia | lia |].
  destruct (Hpos 0%nat 1%nat 2%nat) as (m0 & v0 & Hm0 & Hv0 & _ & _ & _ & Hzero);
    [lia | lia | lia |].
  exists logMask, out, v0, v1.
  split; [exact Hret|]. split; [exact Hout|]. split; [exact Hlen|].
  split; [exact Hv1|]. split.
  { apply Hone. injection Hm1 as <-. reflexivity. }
  split; [exact Hv0|].
  apply Hzero. exists false. injection Hm0 as <-. reflexivity.
Defined.

Lemma transposedLogMask_attended_zero_witness :
  exists (logMask : Node) (out : list float),
    transposedLogMask (Some mask_2x3) 2 = Return (Some logMask) /\
    forward logMask = Some out /\
    out !! 3%nat = Some (S754_zero true).
Proof.
  destruct (transposedLogMask_attended_zero mask_2x3 2 2 3 1 [1] binary32
              (float_lit <$> [1; 1; 0; 1; 0; 0]))
    as (logMask & out & Hret & Hout & Hpos);
    [reflexivity | reflexivity | lia | lia | lia | lia
    | reflexivity | reflexivity | reflexivity |].
  exists logMask, out. split; [exact Hret|]. split; [exact Hout|].
  apply (Hpos 0%nat 1%nat 0%nat); [lia | lia | lia | reflexivity].
Defined.

(** ** Lazy binding in [Linear] *)

(** X4. [Linear::apply] binds its parameters once. A slot that is
    bound keeps its parameter; after a call the weight is bound, and
    the bias too when it is enabled; and a later call, on any input,
    leaves the layer as the first call left it. *)
Theorem Linear_apply_binds_once (l l' : Linear.t) (x y : Node) :
  Linear.apply l x = Return (l', y) ->
  (forall w, Linear.weight l = Some w -> Linear.weight l' = Some w) /\
  (forall b, Linear.bias l = Some b -> Linear.bias l' = Some b) /\
  is_Some (Linear.weight l') /\
  (Linear.useBias l = true -> is_Some (Linear.bias l')) /\
  (Linear.useBias l = false -> Linear.bias l' = Linear.bias l) /\
  (forall (x2 y2 : Node) (l'' : Linear.t),
      Linear.apply l' x2 = Return (l'', y2) -> l'' = l').
Proof.
  intros Happ.
  destruct (Linear_apply_inv _ _ _ _ Happ)
    as (dimIn & w & bias' & _ & Hkeep & Hsome & Hoff & Hbkeep & _ & -> & _).
  cbn [Linear.weight Linear.bias Linear.useBias]. split; [|split; [|split; [|split; [|split]]]].
  - intros w1 Hw1. f_equal. apply Hkeep. exact Hw1.
  - exact Hbkeep.
  - eauto.
  - exact Hsome.
  - exact Hoff.
  - intros x2 y2 l'' Happ2.
    destruct (Linear_apply_inv _ _ _ _ Happ2)
      as (dimIn2 & w2 & bias2 & _ & Hkeep2 & _ & Hoff2 & Hbkeep2 & _ & -> & _).
    cbn [Linear.weight Linear.bias Linear.useBias Linear.layer Linear.dimOut
         Linear.transposed Linear.init] in *.
    rewrite (Hkeep2 w eq_refl).
    assert (bias2 = bias') as ->; [|reflexivity].
    destruct (Linear.useBias l) eqn:Hbias.
    + destruct (Hsome eq_refl) as [b Hb]. rewrite Hb in Hbkeep2 |- *.
      apply Hbkeep2. reflexivity.
    + apply Hoff2. reflexivity.
Qed.

(** X5. The tied-weight constructor takes [dimOut] from the last
    dimension of the given weight and ignores its argument
    [transposed]; [apply] then binds no other weight and multiplies the
    input by the tied weight, cast to the element type of the input
    and not transposed (adding the zero-initialized bias when it is
    enabled); a null tied weight has no defined behaviour. *)
Theorem Linear_new_tied_reuses_weight (base : Layer) (w x : Node)
    (useBias_ transposed_ : bool) (pre : Shape) (d k : Z) :
  shape w = [d; k] ->
  shape x = pre ++ [d] ->
  Linear.new_tied base None useBias_ transposed_ = Undefined /\
  exists (l l' : Linear.t) (y : Node),
    Linear.new_tied base (Some w) useBias_ transposed_ = Return l /\
    Linear.dimOut l = k /\
    Linear.transposed l = false /\
    Linear.apply l x = Return (l', y) /\
    Linear.weight l' = Some w /\
    y = (if useBias_
         then AffineNode x (cast w (value_type x))
                (cast (ParamNode (path base +:+ "_bias") [k]
                         (defaultElementType (graph base)) (Some zeros))
                      (value_type x))
                false false
         else DotNode x (cast w (value_type x)) false false) /\
    shape y = pre ++ [k].
Proof.
  intros Hw Hx. split; [reflexivity|].
  unfold Linear.new_tied. cbn [deref]. rewrite bind_Return.
  rewrite Hw. change [d; k] with ([d] ++ [k]). rewrite Shape_dim_last, bind_Return.
  destruct (inner_dims_match_weight x (cast w (value_type x)) pre d k false Hx)
    as [Hinner Hprod]; [rewrite shape_cast; exact Hw|].
  eexists.
  assert (Happ : exists (l' : Linear.t) (y : Node),
             Linear.apply (Linear.mk base (Some w) None k useBias_ false None) x
             = Return (l', y) /\
             Linear.weight l' = Some w /\
             y = (if useBias_
                  then AffineNode x (cast w (value_type x))
                         (cast (ParamNode (path base +:+ "_bias") [k]
                                  (defaultElementType (graph base)) (Some zeros))
                               (value_type x))
                         false false
                  else DotNode x (cast w (value_type x)) false false) /\
             shape y = pre ++ [k]).
  { destruct useBias_; eexists _, _; (split; [|split; [|split]]).
    - unfold Linear.apply.
      cbn [Linear.transposed Linear.useBias Linear.weight Linear.bias
           Linear.layer Linear.dimOut Linear.init].
      rewrite Hx, Shape_dim_last, bind_Return.
      rewrite registerParameterLazy_same by exact Hw.
      rewrite bind_Return. cbn [registerParameterLazy]. rewrite bind_Return.
      cbv zeta. cbn [deref]. rewrite !bind_Return. unfold affine. rewrite Hinner, bind_Return. reflexivity.
    - reflexivity.
    - reflexivity.
    - simpl. exact Hprod.
    - unfold Linear.apply.
      cbn [Linear.transposed Linear.useBias Linear.weight Linear.bias
           Linear.layer Linear.dimOut Linear.init].
      rewrite Hx, Shape_dim_last, bind_Return.
      rewrite registerParameterLazy_same by exact Hw.
      rewrite bind_Return. cbn [registerParameterLazy]. rewrite bind_Return.
      cbv zeta. cbn [deref]. rewrite !bind_Return. unfold dot. rewrite Hinner, bind_Return. reflexivity.
    - reflexivity.
    - reflexivity.
    - simpl. exact Hprod. }
  destruct Happ as (l' & y & Happ & Hweight & Hy & Hshape).
  exists l', y. repeat split; assumption.
Qed.

(** ** The fused layer against [Linear] *)

(** X6. Whenever [LinearReluDropout::apply] returns, [Linear::apply]
    on the same layer and input returns too, leaves the same
    parameters bound, and gives a result of the same shape and element
    type. *)
Theorem LinearReluDropout_binds_as_Linear
    (l l' : LinearReluDropout.t) (x y : Node) :
  LinearReluDropout.apply l x = Return (l', y) ->
  exists y0 : Node,
    Linear.apply (LinearReluDropout.linear l) x
    = Return (LinearReluDropout.linear l', y0) /\
    shape y = shape y0 /\
    value_type y = value_type y0.
Proof.
  unfold LinearReluDropout.apply.
  destruct (LinearReluDropout.affine_part l x) as [[l1 output]| |] eqn:Haff;
    [|discriminate..].
  rewrite bind_Return.
  destruct (LinearReluDropout.activation_part l1 output) as [y1| |] eqn:Hact;
    [|discriminate..].
  rewrite bind_Return. intros [= <- <-].
  assert (Hy : shape y1 = shape output /\ value_type y1 = value_type output).
  { unfold LinearReluDropout.activation_part in Hact.
    destruct (getMode _); [|injection Hact as <-; split; reflexivity].
    destruct (LinearReluDropout.dropoutMaskShape l1), (SFltb _ _);
      try (injection Hact as <-; split; reflexivity).
    destruct (Shape_dim (shape output) (-2)) as [d2| |]; [|discriminate..].
    rewrite bind_Return in Hact.
    destruct (Shape_dim (shape output) (-1)) as [d1| |]; [|discriminate..].
    rewrite bind_Return in Hact. injection Hact as <-. split; reflexivity. }
  destruct Hy as [-> ->]. clear Hact.
  revert Haff. unfold LinearReluDropout.affine_part, Linear.apply.
  destruct (Shape_dim (shape x) (-1)) as [dimIn| |]; [|discriminate..].
  rewrite !bind_Return.
  destruct (register_weight_cases (LinearReluDropout.linear l) dimIn)
    as [(w & -> & _)| ->]; [|discriminate].
  rewrite !bind_Return.
  destruct (register_bias_cases (LinearReluDropout.linear l))
    as [(bias' & -> & Hsome & _)| ->]; [|discriminate].
  rewrite !bind_Return. cbv zeta.
  destruct (Linear.useBias (LinearReluDropout.linear l)) eqn:Hbias.
  - destruct (Hsome eq_refl) as [b ->]. cbn [deref]. rewrite !bind_Return.
    unfold affine. rewrite inner_dims_match_cast.
    destruct (inner_dims_match x w false _); [|discriminate].
    rewrite !bind_Return. intros [= <- <-].
    eexists. split; [reflexivity|]. simpl. rewrite shape_cast. split; reflexivity.
  - cbn [deref]. rewrite !bind_Return.
    unfold dot. rewrite inner_dims_match_cast.
    destruct (inner_dims_match x w false _); [|discriminate].
    rewrite !bind_Return. intros [= <- <-].
    eexists. split; [reflexivity|]. simpl. rewrite shape_cast. split; reflexivity.
Qed.

Lemma not_positive_SFltb (p : float) :
  not_positive p = true -> SFltb zero_f p = false.
Proof.
  unfold SFltb, zero_f.
  destruct p as [[]|[]| |[] m e]; simpl; intros H; congruence.
Qed.

(** X7. When ReLU is the activation (eval mode, or a probability that
    is not above zero) and the parameters have the element type of the
    input, the fused layer is the [ReLU] layer applied to the result of
    [Linear::apply], with the same parameters bound. *)
Theorem LinearReluDropout_is_ReLU_after_Linear (l : LinearReluDropout.t) (x : Node) :
  getMode (Linear.layer (LinearReluDropout.linear l)) = eval \/
    not_positive (LinearReluDropout.dropoutProbabilty l) = true ->
  defaultElementType (graph (Linear.layer (LinearReluDropout.linear l))) = value_type x ->
  (forall w, Linear.weight (LinearReluDropout.linear l) = Some w ->
             value_type w = value_type x) ->
  (forall c, Linear.bias (LinearReluDropout.linear l) = Some c ->
             value_type c = value_type x) ->
  LinearReluDropout.apply l x
  = '(b', y) ← Linear.apply (LinearReluDropout.linear l) x;
    Return (LinearReluDropout.mk b' (LinearReluDropout.dropoutProbabilty l)
              (LinearReluDropout.dropoutMaskShape l),
            Activation.apply (ReLU (Linear.layer b')) y).
Proof.
  intros Hrelu Hdflt Hw Hc.
  assert (Hact : forall l1 output,
             Linear.layer (LinearReluDropout.linear l1)
             = Linear.layer (LinearReluDropout.linear l) ->
             LinearReluDropout.dropoutProbabilty l1
             = LinearReluDropout.dropoutProbabilty l ->
             LinearReluDropout.activation_part l1 output = Return (relu output)).
  { intros l1 output Hl Hp. unfold LinearReluDropout.activation_part.
    rewrite Hl, Hp. destruct Hrelu as [-> | Hnp]; [reflexivity|].
    rewrite (not_positive_SFltb _ Hnp).
    destruct (getMode _); [|reflexivity].
    destruct (LinearReluDropout.dropoutMaskShape l1); reflexivity. }
  unfold LinearReluDropout.apply.
  rewrite LinearReluDropout_affine_part_same_type by assumption.
  destruct (Linear.apply (LinearReluDropout.linear l) x) as [[b' y]| |] eqn:Happ;
    [|reflexivity..].
  rewrite !bind_Return. cbn beta iota.
  destruct (Linear_apply_inv _ _ _ _ Happ)
    as (dimIn & w & bias' & _ & _ & _ & _ & _ & _ & -> & _).
  rewrite Hact by reflexivity. rewrite bind_Return. reflexivity.
Qed.

(** ** Dropout *)

(** X8. [Dropout::apply] applies dropout exactly in train mode with a
    probability above zero, on the configured mask shape or else on the
    two trailing dimensions of the input; a probability that is NaN,
    zero or negative gives the input back in every mode. *)
Theorem Dropout_apply_cases (l : Dropout.t) (x : Node) :
  (getMode (Dropout.layer l) = eval \/ not_positive (Dropout.dropoutProbabilty l) = true ->
   Dropout.apply l x = Return x) /\
  (getMode (Dropout.layer l) = train ->
   SFltb zero_f (Dropout.dropoutProbabilty l) = true ->
   (forall maskShape : Shape,
       Dropout.dropoutMaskShape l = Some maskShape ->
       Dropout.apply l x = Return (dropout x (Dropout.dropoutProbabilty l) maskShape)) /\
   (Dropout.dropoutMaskShape l = None ->
    forall (pre : Shape) (d2 d1 : Z),
      shape x = pre ++ [d2; d1] ->
      Dropout.apply l x = Return (dropout x (Dropout.dropoutProbabilty l) [d2; d1]))).
Proof.
  unfold Dropout.apply. split.
  - intros [-> | Hnp]; [reflexivity|]. rewrite (not_positive_SFltb _ Hnp).
    destruct (getMode _); [|reflexivity].
    destruct (Dropout.dropoutMaskShape l); reflexivity.
  - intros -> ->. split.
    + intros maskShape ->. reflexivity.
    + intros -> pre d2 d1 Hshape. rewrite Hshape.
      destruct (Shape_dim_last2 pre d2 d1) as [-> ->]. reflexivity.
Qed.

(** ** Normalization layers *)

(** X9. Without the element-wise affine transform, [LayerNorm] and
    [RMSNorm] bind nothing and pass null parameters, even when a slot
    of the layer is bound: the layer is unchanged. *)
Theorem Norm_without_affine (x : Node) (pre : Shape) (d : Z) :
  shape x = pre ++ [d] ->
  (forall l : LayerNorm.t,
      LayerNorm.elementwiseAffine l = false ->
      LayerNorm.apply l x = Return (l, layerNorm x None None (LayerNorm.eps l))) /\
  (forall l : RMSNorm.t,
      RMSNorm.elementwiseAffine l = false ->
      RMSNorm.apply l x = Return (l, rmsNorm x None None (RMSNorm.eps l))).
Proof.
  intros Hx. split; intros l Haff.
  - unfold LayerNorm.apply. rewrite Hx, Shape_dim_last, bind_Return, Haff. reflexivity.
  - unfold RMSNorm.apply. rewrite Hx, Shape_dim_last, bind_Return, Haff. reflexivity.
Qed.

(** X10. [LayerNorm] with the affine transform binds, at its first
    call, a scale of ones and a shift of zeros, both of the size of the
    last dimension of that input; every later call on an input of that
    last dimension passes these same parameters and leaves the layer
    as it is; a later call on an input of another last dimension
    requires another shape of the bound scale, and has no behaviour. *)
Theorem LayerNorm_first_binding (base : Layer) (eps_ : float)
    (x1 x2 x3 : Node) (pre1 pre2 pre3 : Shape) (d d3 : Z) :
  shape x1 = pre1 ++ [d] ->
  shape x2 = pre2 ++ [d] ->
  shape x3 = pre3 ++ [d3] ->
  d3 <> d ->
  let gamma := ParamNode (path base +:+ "_weight") [d]
                 (defaultElementType (graph base)) (Some ones) in
  let beta := ParamNode (path base +:+ "_bias") [d]
                 (defaultElementType (graph base)) (Some zeros) in
  let l1 := LayerNorm.mk base (Some gamma) (Some beta) eps_ true in
  LayerNorm.apply (LayerNorm.new base eps_ true) x1
  = Return (l1, layerNorm x1 (Some gamma) (Some beta) eps_) /\
  LayerNorm.apply l1 x2 = Return (l1, layerNorm x2 (Some gamma) (Some beta) eps_) /\
  LayerNorm.apply l1 x3 = Undefined.
Proof.
  intros Hx1 Hx2 Hx3 Hd gamma beta l1. split; [|split].
  - unfold LayerNorm.apply, LayerNorm.new.
    cbn [LayerNorm.elementwiseAffine LayerNorm.layer LayerNorm.weight LayerNorm.bias
         LayerNorm.eps].
    rewrite Hx1, Shape_dim_last, bind_Return. cbn [registerParameterLazy].
    rewrite !bind_Return. reflexivity.
  - unfold LayerNorm.apply, l1.
    cbn [LayerNorm.elementwiseAffine LayerNorm.layer LayerNorm.weight LayerNorm.bias
         LayerNorm.eps].
    rewrite Hx2, Shape_dim_last, bind_Return.
    rewrite !registerParameterLazy_same by reflexivity.
    rewrite !bind_Return. reflexivity.
  - unfold LayerNorm.apply, l1.
    cbn [LayerNorm.elementwiseAffine LayerNorm.layer LayerNorm.weight LayerNorm.bias
         LayerNorm.eps].
    rewrite Hx3, Shape_dim_last, bind_Return.
    rewrite (registerParameterLazy_other base "weight" gamma); [reflexivity|].
    unfold gamma. cbn [shape]. intros [= Heq]. apply Hd. symmetry. exact Heq.
Qed.

(** X11. [RMSNorm] with the affine transform binds a scale of ones of
    the size of the last dimension of its first input and never a
    shift: every call passes a null shift, and later calls on an input
    of that last dimension reuse the scale of the first; a later call
    on an input of another last dimension requires another shape of
    the bound scale, and has no behaviour. *)
Theorem RMSNorm_first_binding (base : Layer) (eps_ : float)
    (x1 x2 x3 : Node) (pre1 pre2 pre3 : Shape) (d d3 : Z) :
  shape x1 = pre1 ++ [d] ->
  shape x2 = pre2 ++ [d] ->
  shape x3 = pre3 ++ [d3] ->
  d3 <> d ->
  let gamma := ParamNode (path base +:+ "_weight") [d]
                 (defaultElementType (graph base)) (Some ones) in
  let l1 := RMSNorm.mk base (Some gamma) eps_ true in
  RMSNorm.apply (RMSNorm.new base eps_ true) x1
  = Return (l1, rmsNorm x1 (Some gamma) None eps_) /\
  RMSNorm.apply l1 x2 = Return (l1, rmsNorm x2 (Some gamma) None eps_) /\
  RMSNorm.apply l1 x3 = Undefined.
Proof.
  intros Hx1 Hx2 Hx3 Hd gamma l1. split; [|split].
  - unfold RMSNorm.apply, RMSNorm.new.
    cbn [RMSNorm.elementwiseAffine RMSNorm.layer RMSNorm.weight RMSNorm.eps].
    rewrite Hx1, Shape_dim_last, bind_Return. cbn [registerParameterLazy].
    rewrite !bind_Return. reflexivity.
  - unfold RMSNorm.apply, l1.
    cbn [RMSNorm.elementwiseAffine RMSNorm.layer RMSNorm.weight RMSNorm.eps].
    rewrite Hx2, Shape_dim_last, bind_Return.
    rewrite !registerParameterLazy_same by reflexivity.
    rewrite !bind_Return. reflexivity.
  - unfold RMSNorm.apply, l1.
    cbn [RMSNorm.elementwiseAffine RMSNorm.layer RMSNorm.weight RMSNorm.eps].
    rewrite Hx3, Shape_dim_last, bind_Return.
    rewrite (registerParameterLazy_other base "weight" gamma); [reflexivity|].
    unfold gamma. cbn [shape]. intros [= Heq]. apply Hd. symmetry. exact Heq.
Qed.

(** ** The Embed task: options and replicas *)

(** X12. The constructor changes no option but ["inference"] and
    ["shuffle"] and, with the similarity flag set, ["vocabs"],
    ["dim-vocabs"] and ["input-types"]: every other option reaches the
    corpus and the models as the caller gave it. *)
Theorem Embed_options_other_keys (options o' : Options) :
  Embed_options options = Return o' ->
  (forall key : string,
      key <> "inference" -> key <> "shuffle" ->
      key <> "vocabs" -> key <> "dim-vocabs" -> key <> "input-types" ->
      o' !! key = options !! key) /\
  (options !! "compute-similarity" = Some (VBool false) ->
   forall key : string,
     key <> "inference" -> key <> "shuffle" -> o' !! key = options !! key).
Proof.
  unfold Embed_options, Options_with.
  destruct (get_bool options "compute-similarity") as [[]| |] eqn:Hflag;
    [| |discriminate..]; rewrite bind_Return.
  - destruct (get_strings _ "vocabs") as [vs| |]; [|discriminate..]. rewrite bind_Return.
    destruct (get_sizes _ "dim-vocabs") as [ds| |]; [|discriminate..]. rewrite bind_Return.
    destruct (push_back_back vs) as [vs'| |]; [|discriminate..]. rewrite bind_Return.
    destruct (push_back_back ds) as [ds'| |]; [|discriminate..]. rewrite bind_Return.
    intros [= <-]. split.
    + intros key H1 H2 H3 H4 H5. rewrite !lookup_insert_ne by congruence. reflexivity.
    + intros Hfalse. unfold get_bool, Options_get in Hflag. rewrite Hfalse in Hflag.
      discriminate.
  - intros [= <-]. split.
    + intros key H1 H2 _ _ _. rewrite !lookup_insert_ne by congruence. reflexivity.
    + intros _ key H1 H2. rewrite !lookup_insert_ne by congruence. reflexivity.
Qed.

(** X13. With the similarity flag set and an empty vocabulary list or
    an empty dim-vocabs list, the constructor calls [back()] on an
    empty vector: it has no defined behaviour and builds no task. *)
Theorem Embed_options_empty_vocabs (options : Options) (vs : list string) (ds : list N) :
  options !! "compute-similarity" = Some (VBool true) ->
  options !! "vocabs" = Some (VStrings vs) ->
  options !! "dim-vocabs" = Some (VSizes ds) ->
  vs = [] \/ ds = [] ->
  Embed_options options = Undefined /\
  forall (Model : Type) (M : ModelClass Model) (getDevices : Options -> list DeviceId),
    Embed_new (Model := Model) getDevices options = Undefined.
Proof.
  intros Hflag Hvocabs Hdims Hempty.
  assert (Hopt : Embed_options options = Undefined).
  { unfold Embed_options, Options_with, get_bool, get_strings, get_sizes, Options_get.
    rewrite Hflag, !bind_Return.
    rewrite !lookup_insert_ne by discriminate.
    rewrite Hvocabs, Hdims, !bind_Return.
    destruct Hempty as [-> | ->]; [reflexivity|].
    unfold push_back_back. destruct (last vs); reflexivity. }
  split; [exact Hopt|].
  intros Model M getDevices. unfold Embed_new. rewrite Hopt. reflexivity.
Qed.

Lemma Embed_graph_inv (o : Options) (dev : DeviceId) (g : ExpressionGraph) :
  Embed_graph o dev = Return g ->
  inference g = true /\ device g = Some dev /\
  get_int o "workspace" = Return (workspaceMB g) /\
  exists (p : string) (ps : list string),
    get_strings_default o "precision" ["float32"] = Return (p :: ps) /\
    typeFromString p = Return (defaultElementType g).
Proof.
  unfold Embed_graph.
  destruct (get_strings_default o "precision" ["float32"]) as [precison| |];
    [|discriminate..].
  rewrite bind_Return.
  destruct precison as [|p ps]; [discriminate|].
  change (vector_at (p :: ps) 0) with (Return p). rewrite bind_Return.
  destruct (typeFromString p) as [t| |] eqn:Ht; [|discriminate..]. rewrite bind_Return.
  destruct (get_int o "workspace") as [ws| |]; [|discriminate..]. rewrite bind_Return.
  intros [= <-]. cbn [inference device workspaceMB defaultElementType].
  split; [reflexivity|]. split; [reflexivity|]. split; [reflexivity|].
  exists p, ps. split; [reflexivity|exact Ht].
Qed.

(** X14. The task the constructor returns has one graph per device, in
    the order of the devices: an inference graph on that device, with
    the configured workspace and the element type named first under
    ["precision"] (32-bit float when the option is absent); and one
    model per graph, created from the options of the task and loaded on
    that graph from the one weights file of option ["model"]. *)
Theorem Embed_new_replica_pool {Model : Type} `{ModelClass Model}
    (getDevices : Options -> list DeviceId) (options : Options) (e : Embed Model) :
  Embed_new getDevices options = Return e ->
  Forall2 (fun dev g =>
             inference g = true /\ device g = Some dev /\
             get_int (options_ e) "workspace" = Return (workspaceMB g) /\
             exists (p : string) (ps : list string),
               get_strings_default (options_ e) "precision" ["float32"] = Return (p :: ps) /\
               typeFromString p = Return (defaultElementType g))
          (getDevices (options_ e)) (graphs_ e) /\
  Forall2 (fun g m =>
             exists m0 : Model,
               Model_new (options_ e) = Return m0 /\
               Model_load m0 g (modelFile_ e) = Return m)
          (graphs_ e) (models_ e) /\
  get_string (options_ e) "model" = Return (modelPath (modelFile_ e)) /\
  length (graphs_ e) = length (getDevices (options_ e)) /\
  length (models_ e) = length (graphs_ e) /\
  (options_ e !! "precision" = None ->
   Forall (fun g => defaultElementType g = float32) (graphs_ e)).
Proof.
  unfold Embed_new.
  destruct (Embed_options options) as [o| |]; [|discriminate..]. rewrite bind_Return.
  destruct (mapM (Embed_graph o) (getDevices o)) as [gs| |] eqn:Hgs; [|discriminate..].
  rewrite bind_Return.
  destruct (get_string o "model") as [mp| |] eqn:Hmp; [|discriminate..].
  rewrite bind_Return.
  destruct (mapM _ gs) as [ms| |] eqn:Hms; [|discriminate..]. rewrite bind_Return.
  intros [= <-]. cbn [options_ graphs_ models_ modelFile_ modelPath].
  apply mapM_Return_Forall2 in Hgs. apply mapM_Return_Forall2 in Hms.
  assert (Hgraphs : Forall2 (fun dev g =>
             inference g = true /\ device g = Some dev /\
             get_int o "workspace" = Return (workspaceMB g) /\
             exists (p : string) (ps : list string),
               get_strings_default o "precision" ["float32"] = Return (p :: ps) /\
               typeFromString p = Return (defaultElementType g))
          (getDevices o) gs).
  { eapply Forall2_impl; [exact Hgs|]. intros dev g Hg. apply Embed_graph_inv. exact Hg. }
  split; [exact Hgraphs|]. split.
  { eapply Forall2_impl; [exact Hms|]. intros g m Hm. cbv beta in Hm.
    destruct (Model_new o) as [m0| |]; [|discriminate..].
    rewrite bind_Return in Hm. eauto. }
  split; [exact Hmp|].
  split; [symmetry; eapply Forall2_length; exact Hgs|].
  split; [symmetry; eapply Forall2_length; exact Hms|].
  intros Hnone. clear Hgs Hms.
  induction Hgraphs as [|dev g devs gs' (_ & _ & _ & p & ps & Hp & Ht) _ IH];
    constructor; [|exact IH].
  unfold get_strings_default in Hp. rewrite Hnone in Hp. injection Hp as <- <-.
  change (typeFromString "float32") with (@Return Type_ float32) in Ht.
  injection Ht as <-. reflexivity.
Qed.

(** ** The Embed task: the vectors written *)

Lemma join_cons_app {A : Type} (x : list A) (xs : list (list A)) :
  mjoin (x :: xs) = x ++ mjoin xs.
Proof. reflexivity. Qed.

Lemma to_long_mod (z : Z) : to_long (z mod 2 ^ 64) = to_long z.
Proof. unfold to_long. rewrite Z.mod_mod by lia. reflexivity. Qed.

Lemma to_long_small (z : Z) : 0 <= z < 2 ^ 63 -> to_long z = z.
Proof.
  intros Hz. unfold to_long. rewrite Z.mod_small by lia. cbv zeta.
  destruct (Z.ltb_spec z (2 ^ 63)); lia.
Qed.

Lemma to_long_large (z : Z) : 2 ^ 63 <= z < 2 ^ 64 -> to_long z = z - 2 ^ 64.
Proof.
  intros Hz. unfold to_long. rewrite Z.mod_small by lia. cbv zeta.
  destruct (Z.ltb_spec z (2 ^ 63)); lia.
Qed.

Lemma to_long_negative (z : Z) : - 2 ^ 63 <= z < 0 -> to_long z = z.
Proof.
  intros Hz. rewrite <- to_long_mod.
  replace (z mod 2 ^ 64) with (z + 2 ^ 64).
  - rewrite to_long_large by lia. lia.
  - apply (Z.mod_unique z (2 ^ 64) (-1) (z + 2 ^ 64)); lia.
Qed.

Section Collect.
Variable embeddings : Embeddings.
Variable sentVectors : list float.
Variable E : nat.
Hypothesis HembSize : Shape_dim (emb_shape embeddings) (-1) = Return (Z.of_nat E).
Hypothesis Hint : Z.of_nat E < 2 ^ 31.
Hypothesis Hsize : Z.of_nat (length sentVectors) < 2 ^ 63.

Lemma collect_step (i : nat) (id : N) (ids : list N) :
  (i * E <= length sentVectors)%nat ->
  collect embeddings sentVectors i (id :: ids)
  = if ((i + 1) * E <=? length sentVectors)%nat
    then rest ← collect embeddings sentVectors (S i) ids;
         Return ((to_long (Z.of_N id), take E (drop (i * E) sentVectors)) :: rest)
    else Undefined.
Proof.
  intros Hbeg. simpl collect. rewrite HembSize, bind_Return. cbv zeta.
  rewrite !to_long_mod.
  replace (Z.of_nat i * Z.of_nat E) with (Z.of_nat (i * E)) by lia.
  replace ((Z.of_nat i + 1) * Z.of_nat E) with (Z.of_nat ((i + 1) * E)) by lia.
  rewrite (to_long_small (Z.of_nat (i * E))) by lia.
  destruct (Nat.leb_spec ((i + 1) * E) (length sentVectors)) as [Hle|Hgt].
  - rewrite (to_long_small (Z.of_nat ((i + 1) * E))) by lia.
    replace ((0 <=? Z.of_nat (i * E)) && (Z.of_nat (i * E) <=? Z.of_nat ((i + 1) * E))
             && (Z.of_nat ((i + 1) * E) <=? Z.of_nat (length sentVectors)))
      with true by (symmetry; rewrite !andb_true_iff, !Z.leb_le; lia).
    replace (Z.to_nat (Z.of_nat ((i + 1) * E) - Z.of_nat (i * E))) with E by lia.
    rewrite Nat2Z.id. reflexivity.
  - destruct (Z.lt_ge_cases (Z.of_nat ((i + 1) * E)) (2 ^ 63)) as [Hlt|Hge].
    + rewrite (to_long_small (Z.of_nat ((i + 1) * E))) by lia.
      replace (Z.of_nat ((i + 1) * E) <=? Z.of_nat (length sentVectors)) with false
        by (symmetry; apply Z.leb_gt; lia).
      rewrite andb_false_r. reflexivity.
    + rewrite (to_long_large (Z.of_nat ((i + 1) * E))) by lia.
      replace (Z.of_nat (i * E) <=? Z.of_nat ((i + 1) * E) - 2 ^ 64) with false
        by (symmetry; apply Z.leb_gt; lia).
      rewrite andb_false_r. reflexivity.
Qed.

Lemma collect_fits (ids : list N) :
  forall i : nat,
    ((i + length ids) * E <= length sentVectors)%nat ->
    exists written : list (Z * list float),
      collect embeddings sentVectors i ids = Return written /\
      mjoin (written.*2) = take (length ids * E) (drop (i * E) sentVectors) /\
      forall (k : nat) (id : Z) (vec : list float),
        written !! k = Some (id, vec) ->
        vec = take E (drop ((i + k) * E) sentVectors) /\
        length vec = E.
Proof.
  induction ids as [|id ids IH]; intros i Hfit.
  - exists []. split; [reflexivity|]. split; [reflexivity|].
    intros k id vec Hk. discriminate.
  - simpl length in Hfit. rewrite collect_step by nia.
    destruct (Nat.leb_spec ((i + 1) * E) (length sentVectors)); [|nia].
    destruct (IH (S i)) as (rest & -> & Hjoin & Hrows); [nia|].
    rewrite bind_Return. eexists. split; [reflexivity|]. split.
    + rewrite fmap_cons, join_cons_app, Hjoin. cbn [snd].
      replace (S i * E)%nat with (i * E + E)%nat by lia.
      rewrite <- drop_drop, take_take_drop. reflexivity.
    + intros k id' vec Hk. destruct k as [|k]; simpl in Hk.
      * injection Hk as <- <-. rewrite Nat.add_0_r. split; [reflexivity|].
        rewrite length_take_le; [reflexivity|]. rewrite length_drop. nia.
      * destruct (Hrows k id' vec Hk) as [-> Hlen].
        replace (i + S k)%nat with (S i + k)%nat by lia. split; [reflexivity|exact Hlen].
Qed.

Lemma collect_short (ids : list N) :
  forall i : nat,
    (i * E <= length sentVectors)%nat ->
    (length sentVectors < (i + length ids) * E)%nat ->
    collect embeddings sentVectors i ids = Undefined.
Proof.
  induction ids as [|id ids IH]; intros i Hbeg Hshort; [simpl in Hshort; lia|].
  simpl length in Hshort. rewrite collect_step by exact Hbeg.
  destruct (Nat.leb_spec ((i + 1) * E) (length sentVectors)) as [Hle|];
    [|reflexivity].
  rewrite IH; [reflexivity|nia|nia].
Qed.
End Collect.

Lemma collect_keys (embeddings : Embeddings) (sentVectors : list float) (ids : list N) :
  forall (i : nat) (written : list (Z * list float)),
    collect embeddings sentVectors i ids = Return written ->
    written.*1 = (fun id => to_long (Z.of_N id)) <$> ids.
Proof.
  induction ids as [|id ids IH]; intros i written Hcol.
  - injection Hcol as <-. reflexivity.
  - simpl collect in Hcol.
    destruct (Shape_dim (emb_shape embeddings) (-1)) as [embSize| |]; [|discriminate..].
    rewrite bind_Return in Hcol. cbv zeta in Hcol.
    destruct (_ && _); [|discriminate].
    destruct (collect embeddings sentVectors (S i) ids) as [rest| |] eqn:Hrest;
      [|discriminate..].
    rewrite bind_Return in Hcol. injection Hcol as <-.
    rewrite !fmap_cons, (IH (S i) rest Hrest). reflexivity.
Qed.

Lemma collect_negative (embeddings : Embeddings) (sentVectors : list float)
    (embSize : Z) (id : N) (ids : list N) :
  Shape_dim (emb_shape embeddings) (-1) = Return embSize ->
  - 2 ^ 63 <= embSize < 0 ->
  collect embeddings sentVectors 0 (id :: ids) = Undefined.
Proof.
  intros Hdim Hneg. simpl collect. rewrite Hdim, bind_Return. cbv zeta.
  rewrite !to_long_mod. change (Z.of_nat 0) with 0.
  rewrite Z.mul_0_l, Z.add_0_l, Z.mul_1_l.
  rewrite (to_long_small 0) by lia. rewrite (to_long_negative embSize) by lia.
  replace (0 <=? embSize) with false by (symmetry; apply Z.leb_gt; lia).
  reflexivity.
Qed.

(** X16. The loop that cuts the buffer into sentence vectors, for a
    last dimension [embSize] that is an [int] and a buffer of fewer
    than [2^63] floats. It returns exactly when [embSize] is not
    negative and the buffer holds [embSize] floats per sentence. It
    then writes one record per sentence, in order and keyed by the
    sentence id converted to [long]; the vector of sentence [k] is the
    [k]-th run of [embSize] floats, and the vectors together are the
    start of the buffer, with no overlap and no gap. A shorter buffer
    is read past its end, and a negative [embSize] gives a range that
    ends before it begins. *)
Theorem collect_slices (embeddings : Embeddings) (sentVectors : list float)
    (embSize : Z) (ids : list N) :
  Shape_dim (emb_shape embeddings) (-1) = Return embSize ->
  - 2 ^ 31 <= embSize < 2 ^ 31 ->
  Z.of_nat (length sentVectors) < 2 ^ 63 ->
  (0 <= embSize ->
   (length ids * Z.to_nat embSize <= length sentVectors)%nat ->
   exists written : list (Z * list float),
     collect embeddings sentVectors 0 ids = Return written /\
     written.*1 = (fun id => to_long (Z.of_N id)) <$> ids /\
     mjoin (written.*2) = take (length ids * Z.to_nat embSize) sentVectors /\
     forall (k : nat) (id : Z) (vec : list float),
       written !! k = Some (id, vec) ->
       vec = take (Z.to_nat embSize) (drop (k * Z.to_nat embSize) sentVectors) /\
       length vec = Z.to_nat embSize) /\
  (0 <= embSize ->
   (length sentVectors < length ids * Z.to_nat embSize)%nat ->
   collect embeddings sentVectors 0 ids = Undefined) /\
  (embSize < 0 -> ids <> [] ->
   collect embeddings sentVectors 0 ids = Undefined).
Proof.
  intros Hdim Hint Hsize. split; [|split].
  - intros Hpos Hfit. rewrite <- (Z2Nat.id embSize Hpos) in Hdim.
    destruct (collect_fits embeddings sentVectors (Z.to_nat embSize) Hdim
                ltac:(lia) Hsize ids 0%nat Hfit) as (written & Hcol & Hjoin & Hrows).
    exists written. split; [exact Hcol|].
    split; [exact (collect_keys _ _ _ _ _ Hcol)|]. split; assumption.
  - intros Hpos Hshort. rewrite <- (Z2Nat.id embSize Hpos) in Hdim.
    apply (collect_short embeddings sentVectors (Z.to_nat embSize) Hdim
             ltac:(lia) Hsize ids 0%nat); [lia|exact Hshort].
  - intros Hneg Hne. destruct ids as [|id ids]; [contradiction|].
    apply (collect_negative embeddings sentVectors embSize id ids Hdim). lia.
Qed.

Lemma extract_length (embeddings : Embeddings) (sentVectors : list float) :
  extract embeddings = Return sentVectors ->
  length sentVectors = length (emb_val embeddings) /\
  (emb_value_type embeddings = float32 \/ emb_value_type embeddings = float16).
Proof.
  unfold extract, Tensor_get.
  destruct (decide (emb_value_type embeddings = float32)) as [H32|_].
  - intros [= <-]. split; [reflexivity|left; exact H32].
  - destruct (decide (emb_value_type embeddings = float16)) as [H16|_]; [|discriminate].
    intros [= <-]. rewrite foldl_snoc_fmap. simpl. rewrite length_fmap.
    split; [reflexivity|right; exact H16].
Qed.

(** X17. A task that returns has written one record per sentence of
    its batch, in the order of the batch and keyed by the sentence id
    converted to [long]. The embeddings were 32-bit or 16-bit floats;
    when their last dimension [embSize] is an [int] and there are fewer
    than [2^63] of them, [embSize] is not negative, there are at least
    [embSize] of them per sentence, and each vector has [embSize]
    floats. *)
Theorem task_writes_one_record_per_sentence {Model : Type} `{ModelClass Model}
    (e : Embed Model) (batch : CorpusBatch) (id : nat) (tl tl' : ThreadLocal Model)
    (tr : TaskTrace Model) :
  task e batch id tl = Return (tl', tr) ->
  (trace_written tr).*1 = (fun id => to_long (Z.of_N id)) <$> sentenceIds batch /\
  length (trace_written tr) = batch_size batch /\
  exists embeddings : Embeddings,
    Model_build (trace_builder tr) (trace_graph tr) batch = Return embeddings /\
    (emb_value_type embeddings = float32 \/ emb_value_type embeddings = float16) /\
    (sentenceIds batch <> [] ->
     exists embSize : Z,
       Shape_dim (emb_shape embeddings) (-1) = Return embSize /\
       (- 2 ^ 31 <= embSize < 2 ^ 31 ->
        Z.of_nat (length (emb_val embeddings)) < 2 ^ 63 ->
        0 <= embSize /\
        (batch_size batch * Z.to_nat embSize <= length (emb_val embeddings))%nat /\
        Forall (fun r => length r.2 = Z.to_nat embSize) (trace_written tr))).
Proof.
  unfold task.
  destruct (select_replica e id tl) as [[g b]| |]; [|discriminate..].
  rewrite bind_Return. cbn [tl_graph tl_builder].
  destruct g as [g|]; [|discriminate]. cbn [deref]. rewrite bind_Return.
  destruct b as [b|]; [|discriminate]. cbn [deref]. rewrite bind_Return.
  destruct (Model_build b g batch) as [emb| |] eqn:Hbuild; [|discriminate..].
  rewrite bind_Return.
  destruct (extract emb) as [sv| |] eqn:Hext; [|discriminate..]. rewrite bind_Return.
  destruct (collect emb sv 0 (sentenceIds batch)) as [written| |] eqn:Hcol;
    [|discriminate..].
  rewrite bind_Return. intros [= <- <-]. cbn [trace_written trace_builder trace_graph].
  destruct (extract_length _ _ Hext) as [Hlen Htype]. unfold batch_size.
  pose proof (collect_keys _ _ _ _ _ Hcol) as Hkeys.
  split; [exact Hkeys|]. split.
  { rewrite <- (length_fmap fst written), Hkeys, length_fmap. reflexivity. }
  exists emb. split; [exact Hbuild|]. split; [exact Htype|].
  destruct (sentenceIds batch) as [|id0 ids] eqn:Hids; [intros Hne; contradiction|].
  intros _.
  destruct (Shape_dim (emb_shape emb) (-1)) as [embSize| |] eqn:Hdim;
    [|simpl in Hcol; rewrite Hdim in Hcol; discriminate..].
  exists embSize. split; [reflexivity|]. intros Hint Hsize. rewrite <- Hlen in Hsize.
  destruct (Z.lt_ge_cases embSize 0) as [Hneg|Hpos].
  { rewrite (collect_negative emb sv embSize id0 ids Hdim) in Hcol by lia.
    discriminate. }
  split; [exact Hpos|].
  rewrite <- (Z2Nat.id embSize Hpos) in Hdim.
  destruct (Nat.le_gt_cases (length (id0 :: ids) * Z.to_nat embSize) (length sv))
    as [Hfit|Hshort].
  - destruct (collect_fits emb sv (Z.to_nat embSize) Hdim ltac:(lia) Hsize
                (id0 :: ids) 0%nat Hfit) as (written' & Hcol' & _ & Hrows).
    rewrite Hcol in Hcol'. injection Hcol' as <-.
    split; [rewrite <- Hlen; exact Hfit|].
    apply Forall_lookup. intros k [id' vec] Hk. simpl.
    exact (proj2 (Hrows k id' vec Hk)).
  - rewrite (collect_short emb sv (Z.to_nat embSize) Hdim ltac:(lia) Hsize
               (id0 :: ids) 0%nat) in Hcol; [discriminate|lia|exact Hshort].
Qed.

(** ** The Embed task: workers that share a replica *)

(** X18. The replica of a worker depends only on the index of its
    first task, taken modulo the number of replicas: two workers whose
    first tasks have the same remainder run all their tasks on the same
    graph and model. *)
Theorem run_workers_share_replica {Model : Type} `{ModelClass Model}
    (e : Embed Model) (batches : list CorpusBatch) (schedule : list nat)
    (traces : list (nat * TaskTrace Model))
    (k1 k2 w1 w2 j1 j2 : nat) (tr1 tr2 : TaskTrace Model) :
  run e batches schedule = Return traces ->
  traces !! k1 = Some (w1, tr1) ->
  traces !! k2 = Some (w2, tr2) ->
  first_task schedule w1 j1 ->
  first_task schedule w2 j2 ->
  (j1 mod length (graphs_ e) = j2 mod length (graphs_ e))%nat ->
  trace_graph tr1 = trace_graph tr2 /\ trace_builder tr1 = trace_builder tr2.
Proof.
  unfold run.
  destruct (get_string _ _) as [outputPath| |]; [|discriminate..]. rewrite bind_Return.
  destruct (get_bool _ _) as [binary| |]; [|discriminate..]. rewrite bind_Return.
  intros Hrun Hk1 Hk2 Hj1 Hj2 Hmod.
  assert (Hinv : tls_inv e [] (∅ : gmap nat (ThreadLocal Model))).
  { intros w. rewrite lookup_empty. intros j. rewrite lookup_nil. discriminate. }
  pose proof (run_tasks_replicas e batches schedule [] ∅ traces Hinv Hrun) as Hall.
  destruct (Hall k1 w1 tr1 Hk1) as (_ & _ & i1 & Hi1 & Hg1 & Hb1).
  destruct (Hall k2 w2 tr2 Hk2) as (_ & _ & i2 & Hi2 & Hg2 & Hb2).
  simpl in Hi1, Hi2.
  rewrite (first_task_unique _ _ _ _ Hi1 Hj1) in Hg1, Hb1.
  rewrite (first_task_unique _ _ _ _ Hi2 Hj2) in Hg2, Hb2.
  rewrite Hmod in Hg1, Hb1. split; congruence.
Qed.

(** ** The further properties at concrete inputs *)

Lemma Linear_apply_unbound_witness :
  exists (l' : Linear.t) (y w : Node),
    Linear.apply (Linear.mk base_eval None None 3 true true (Some glorotUniform)) x_f32
    = Return (l', y) /\
    Linear.weight l' = Some w /\
    shape w = [3; 5] /\
    shape y = [2; 3].
Proof.
  destruct (Linear_apply_unbound
              (Linear.mk base_eval None None 3 true true (Some glorotUniform))
              x_f32 [2] 5 eq_refl eq_refl eq_refl)
    as (l' & y & w & Happ & Hw & Hweq & _ & _ & Hshape).
  exists l', y, w. split; [exact Happ|]. split; [exact Hw|].
  split; [rewrite Hweq; reflexivity|exact Hshape].
Defined.

Lemma Linear_apply_binds_once_witness :
  exists (l' : Linear.t) (y : Node),
    Linear.apply (Linear.new base_eval 3 true false glorotUniform) x_f32 = Return (l', y) /\
    is_Some (Linear.weight l') /\
    forall (x2 y2 : Node) (l'' : Linear.t),
      Linear.apply l' x2 = Return (l'', y2) -> l'' = l'.
Proof.
  eexists _, _. split; [reflexivity|].
  pose proof (Linear_apply_binds_once
                (Linear.new base_eval 3 true false glorotUniform) _ x_f32 _ eq_refl)
    as (_ & _ & Hbound & _ & _ & Hfix).
  split; [exact Hbound|exact Hfix].
Defined.

Lemma Linear_new_tied_reuses_weight_witness :
  exists (l l' : Linear.t) (y : Node),
    Linear.new_tied base_eval (Some (ParamNode "Wemb" [5; 3] float32 None)) false true
    = Return l /\
    Linear.dimOut l = 3 /\
    Linear.transposed l = false /\
    Linear.apply l x_f32 = Return (l', y) /\
    Linear.weight l' = Some (ParamNode "Wemb" [5; 3] float32 None) /\
    y = DotNode x_f32 (cast (ParamNode "Wemb" [5; 3] float32 None) (value_type x_f32))
          false false /\
    shape y = [2; 3].
Proof.
  exact (proj2 (Linear_new_tied_reuses_weight base_eval
                  (ParamNode "Wemb" [5; 3] float32 None) x_f32 false true [2] 5 3
                  eq_refl eq_refl)).
Defined.

Lemma LinearReluDropout_binds_as_Linear_witness :
  exists (l' : LinearReluDropout.t) (y y0 : Node),
    LinearReluDropout.apply
      (LinearReluDropout.new base_train 3 half_f true false glorotUniform) x_f32
    = Return (l', y) /\
    Linear.apply (Linear.new base_train 3 true false glorotUniform) x_f32
    = Return (LinearReluDropout.linear l', y0) /\
    shape y = shape y0 /\
    value_type y = value_type y0.
Proof.
  eexists _, _.
  destruct (LinearReluDropout_binds_as_Linear
              (LinearReluDropout.new base_train 3 half_f true false glorotUniform)
              _ x_f32 _ eq_refl) as (y0 & Hlin & Hshape & Htype).
  exists y0. split; [reflexivity|]. split; [exact Hlin|]. split; assumption.
Defined.

Lemma LinearReluDropout_is_ReLU_after_Linear_witness :
  LinearReluDropout.apply
    (LinearReluDropout.new base_eval 3 half_f true false glorotUniform) x_f32
  = '(b', y) ← Linear.apply (Linear.new base_eval 3 true false glorotUniform) x_f32;
    Return (LinearReluDropout.mk b' half_f None,
            Activation.apply (ReLU (Linear.layer b')) y).
Proof.
  apply (LinearReluDropout_is_ReLU_after_Linear
           (LinearReluDropout.new base_eval 3 half_f true false glorotUniform) x_f32).
  - left. reflexivity.
  - reflexivity.
  - intros w Hw. discriminate Hw.
  - intros c Hc. discriminate Hc.
Defined.

Lemma Dropout_apply_cases_witness :
  Dropout.apply (Dropout.new base_train S754_nan) x_f32 = Return x_f32 /\
  Dropout.apply (Dropout.new base_train half_f) x_f32
  = Return (dropout x_f32 half_f [2; 5]).
Proof.
  split.
  - exact (proj1 (Dropout_apply_cases (Dropout.new base_train S754_nan) x_f32)
             (or_intror eq_refl)).
  - exact (proj2 (proj2 (Dropout_apply_cases (Dropout.new base_train half_f) x_f32)
                    eq_refl eq_refl) eq_refl [] 2 5 eq_refl).
Defined.

Lemma Norm_without_affine_witness :
  LayerNorm.apply (LayerNorm.new base_eval eps_default false) x_f32
  = Return (LayerNorm.new base_eval eps_default false,
            layerNorm x_f32 None None eps_default) /\
  RMSNorm.apply (RMSNorm.new base_eval eps_default false) x_f32
  = Return (RMSNorm.new base_eval eps_default false,
            rmsNorm x_f32 None None eps_default).
Proof.
  destruct (Norm_without_affine x_f32 [2] 5 eq_refl) as [Hlayer Hrms].
  split; [apply Hlayer|apply Hrms]; reflexivity.
Defined.

Lemma LayerNorm_first_binding_witness :
  exists (l1 : LayerNorm.t) (gamma beta : Node),
    shape gamma = [5] /\ shape beta = [5] /\
    LayerNorm.apply (LayerNorm.new base_eval eps_default true) x_f32
    = Return (l1, layerNorm x_f32 (Some gamma) (Some beta) eps_default) /\
    LayerNorm.apply l1 x_3x5
    = Return (l1, layerNorm x_3x5 (Some gamma) (Some beta) eps_default) /\
    LayerNorm.apply l1 x_f16 = Undefined.
Proof.
  eexists _, _, _. split; [|split]; [| |
    exact (LayerNorm_first_binding base_eval eps_default x_f32 x_3x5 x_f16
             [2] [4; 3] [2] 5 3 eq_refl eq_refl eq_refl ltac:(discriminate))];
    reflexivity.
Defined.

Lemma RMSNorm_first_binding_witness :
  exists (l1 : RMSNorm.t) (gamma : Node),
    shape gamma = [5] /\
    RMSNorm.apply (RMSNorm.new base_eval eps_default true) x_f32
    = Return (l1, rmsNorm x_f32 (Some gamma) None eps_default) /\
    RMSNorm.apply l1 x_3x5 = Return (l1, rmsNorm x_3x5 (Some gamma) None eps_default) /\
    RMSNorm.apply l1 x_f16 = Undefined.
Proof.
  eexists _, _. split;
    [|exact (RMSNorm_first_binding base_eval eps_default x_f32 x_3x5 x_f16
               [2] [4; 3] [2] 5 3 eq_refl eq_refl eq_refl ltac:(discriminate))];
    reflexivity.
Defined.

Lemma Embed_options_other_keys_witness :
  let o' : Options :=
    <["input-types" := VStrings ["sequence"; "sequence"]]>
      (<["dim-vocabs" := VSizes [32000%N; 32000%N]]>
         (<["vocabs" := VStrings ["vocab.spm"; "vocab.spm"]]>
            (<["shuffle" := VString "none"]>
               (<["inference" := VBool true]> options_similarity)))) in
  Embed_options options_similarity = Return o' /\
  o' !! "workspace" = Some (VInt 512) /\
  o' !! "model" = Some (VString "model.npz").
Proof.
  intros o'.
  assert (Hopt : Embed_options options_similarity = Return o')
    by (vm_compute; reflexivity).
  split; [exact Hopt|].
  destruct (Embed_options_other_keys options_similarity o' Hopt) as [Hkeep _].
  rewrite (Hkeep "workspace"), (Hkeep "model") by discriminate.
  split; vm_compute; reflexivity.
Defined.

Lemma Embed_options_empty_vocabs_witness :
  Embed_options (<["vocabs" := VStrings []]> options_similarity) = Undefined /\
  Embed_new (Model := ToyModel) two_devices
    (<["vocabs" := VStrings []]> options_similarity) = Undefined.
Proof.
  destruct (Embed_options_empty_vocabs
              (<["vocabs" := VStrings []]> options_similarity) [] [32000%N])
    as [Hopt Hnew]; [vm_compute; reflexivity..|left; reflexivity|].
  split; [exact Hopt|apply Hnew].
Defined.

Lemma Embed_new_replica_pool_witness :
  length (graphs_ embed_two) = 2%nat /\
  length (models_ embed_two) = length (graphs_ embed_two) /\
  Forall (fun g => defaultElementType g = float32) (graphs_ embed_two).
Proof.
  destruct (Embed_new_replica_pool two_devices options_plain embed_two)
    as (_ & _ & _ & Hgraphs & Hmodels & Hdefault); [vm_compute; reflexivity|].
  split; [exact Hgraphs|]. split; [exact Hmodels|].
  apply Hdefault. reflexivity.
Defined.

Lemma float16_to_float_exact_witness :
  same_value (float16_to_float (round_to binary16 3 (-1))) (round_to binary16 3 (-1))
  = true /\
  valid_binary 24 128 (float16_to_float (round_to binary16 3 (-1))) = true.
Proof.
  apply (float16_to_float_exact (round_to binary16 3 (-1))). reflexivity.
Defined.

Lemma collect_slices_witness :
  exists written : list (Z * list float),
    collect (mkEmbeddings float32 [2; 2] (float_lit <$> [1; 2; 3; 4]))
            (float_lit <$> [1; 2; 3; 4]) 0 [7%N; (2 ^ 64 - 1)%N]
    = Return written /\
    written.*1 = [7; -1] /\
    mjoin (written.*2) = float_lit <$> [1; 2; 3; 4].
Proof.
  destruct (collect_slices
              (mkEmbeddings float32 [2; 2] (float_lit <$> [1; 2; 3; 4]))
              (float_lit <$> [1; 2; 3; 4]) 2 [7%N; (2 ^ 64 - 1)%N] eq_refl)
    as (Hfit & _ & _); [lia|reflexivity|].
  destruct Hfit as (written & Hcol & Hkeys & Hjoin & _);
    [lia|vm_compute; lia|].
  exists written. split; [exact Hcol|]. split; [exact Hkeys|exact Hjoin].
Defined.

Lemma task_writes_one_record_per_sentence_witness :
  exists (tl' : ThreadLocal ToyModel) (tr : TaskTrace ToyModel),
    task embed_two (mkCorpusBatch [4%N; 5%N]) 0 ThreadLocal_init = Return (tl', tr) /\
    (trace_written tr).*1 = [4; 5] /\
    length (trace_written tr) = 2%nat.
Proof.
  destruct (task embed_two (mkCorpusBatch [4%N; 5%N]) 0 ThreadLocal_init)
    as [[tl' tr]| |] eqn:Htask; [|vm_compute in Htask; discriminate..].
  exists tl', tr. split; [reflexivity|].
  destruct (task_writes_one_record_per_sentence embed_two (mkCorpusBatch [4%N; 5%N])
              0 ThreadLocal_init tl' tr Htask) as (Hkeys & Hlen & _).
  split; [exact Hkeys|exact Hlen].
Defined.

Lemma run_workers_share_replica_witness :
  exists (traces : list (nat * TaskTrace ToyModel)) (tr1 tr2 : TaskTrace ToyModel),
    run embed_two three_batches [0; 0; 1]%nat = Return traces /\
    traces !! 0%nat = Some (0%nat, tr1) /\
    traces !! 2%nat = Some (1%nat, tr2) /\
    trace_graph tr1 = trace_graph tr2 /\ trace_builder tr1 = trace_builder tr2.
Proof.
  eexists _, _, _. split; [vm_compute; reflexivity|].
  split; [reflexivity|]. split; [reflexivity|].
  eapply (run_workers_share_replica embed_two three_batches [0; 0; 1]%nat _
            0 2 0 1 0 2).
  - vm_compute. reflexivity.
  - reflexivity.
  - reflexivity.
  - split; [reflexivity|]. intros j' Hlt. lia.
  - split; [reflexivity|]. intros j' Hlt.
    destruct j' as [|[|j']]; [discriminate|discriminate|lia].
  - reflexivity.
Defined.
